(** * The declarative field validator of aviabot-shared-utils

    A shallow embedding of [validation/validator.go] and the properties of
    its rule engine, followed by the configuration store of package
    [config] and the identifier generators of package [providers].  Go
    strings are byte strings ([string]); the integers of the code are [Z];
    a returned [error] is [option string], [None] being [nil]. *)

From Stdlib Require Import String Ascii List ZArith NArith Bool Lia.
From Stdlib Require Import FMapList FMapFacts OrderedTypeEx.
Import ListNotations.

Local Open Scope string_scope.
Local Open Scope list_scope.

(** ** Go strings: the parts of [strings], [unicode] and [unicode/utf8]
    that the validator calls *)

Module GoString.

Definition byte_of (c : ascii) : N := N_of_ascii c.

Fixpoint take (n : nat) (s : string) : string :=
  match n, s with
  | S n', String c s' => String c (take n' s')
  | _, _ => EmptyString
  end.

Fixpoint drop (n : nat) (s : string) : string :=
  match n, s with
  | S n', String _ s' => drop n' s'
  | _, _ => s
  end.

Definition RuneError : N := 65533.

Definition continuation (b : N) : bool := (128 <=? b)%N && (b <=? 191)%N.

(** The [first] and [acceptRanges] tables of [unicode/utf8]: for a leading
    byte, the width of the sequence and the range allowed for its second
    byte; [None] for a byte that starts no sequence. *)
Definition first (b : N) : option (nat * N * N) :=
  if (b <? 194)%N then None
  else if (b <=? 223)%N then Some (2%nat, 128%N, 191%N)
  else if (b =? 224)%N then Some (3%nat, 160%N, 191%N)
  else if (b <=? 236)%N then Some (3%nat, 128%N, 191%N)
  else if (b =? 237)%N then Some (3%nat, 128%N, 159%N)
  else if (b <=? 239)%N then Some (3%nat, 128%N, 191%N)
  else if (b =? 240)%N then Some (4%nat, 144%N, 191%N)
  else if (b <=? 243)%N then Some (4%nat, 128%N, 191%N)
  else if (b =? 244)%N then Some (4%nat, 128%N, 143%N)
  else None.

Definition low (bits : N) (b : N) : N := N.land b (N.ones bits).

Definition byteAt (s : string) (i : nat) : N :=
  match String.get i s with
  | Some c => byte_of c
  | None => 0%N
  end.

(** [utf8.DecodeRuneInString]: the first rune of [s] and its width in
    bytes; an invalid sequence is [RuneError] of width 1. *)
Definition DecodeRuneInString (s : string) : N * nat :=
  let n := String.length s in
  if (n <? 1)%nat then (RuneError, 0)
  else
    let s0 := byteAt s 0 in
    if (s0 <? 128)%N then (s0, 1)
    else
      match first s0 with
      | None => (RuneError, 1)
      | Some (sz, lo, hi) =>
        if (n <? sz)%nat then (RuneError, 1)
        else
          let s1 := byteAt s 1 in
          if (s1 <? lo)%N || (hi <? s1)%N then (RuneError, 1)
          else if (sz <=? 2)%nat then
            (N.lor (N.shiftl (low 5 s0) 6) (low 6 s1), 2)
          else
            let s2 := byteAt s 2 in
            if negb (continuation s2) then (RuneError, 1)
            else if (sz <=? 3)%nat then
              (N.lor (N.shiftl (low 4 s0) 12)
                 (N.lor (N.shiftl (low 6 s1) 6) (low 6 s2)), 3)
            else
              let s3 := byteAt s 3 in
              if negb (continuation s3) then (RuneError, 1)
              else
                (N.lor (N.shiftl (low 3 s0) 18)
                   (N.lor (N.shiftl (low 6 s1) 12)
                      (N.lor (N.shiftl (low 6 s2) 6) (low 6 s3))), 4)
      end.

(** The runes of a string in order, each with the bytes it was decoded
    from, as a [for range] loop over the string sees them. *)
Fixpoint runesFrom (fuel : nat) (s : string) : list (N * string) :=
  match fuel with
  | O => []
  | S fuel' =>
    match s with
    | EmptyString => []
    | _ =>
      let '(r, size) := DecodeRuneInString s in
      (r, take size s) :: runesFrom fuel' (drop size s)
    end
  end.

Definition runes (s : string) : list (N * string) := runesFrom (String.length s) s.

Definition codepoints (s : string) : list N := map fst (runes s).

(** [unicode.IsSpace]: the Latin-1 spaces and the code points of the
    White_Space property. *)
Definition IsSpace (r : N) : bool :=
  ((9 <=? r) && (r <=? 13) || (r =? 32) || (r =? 133) || (r =? 160)
   || (r =? 5760) || (8192 <=? r) && (r <=? 8202) || (r =? 8232)
   || (r =? 8233) || (r =? 8239) || (r =? 8287) || (r =? 12288))%N.

Fixpoint dropWhile {A} (p : A -> bool) (l : list A) : list A :=
  match l with
  | x :: l' => if p x then dropWhile p l' else l
  | [] => []
  end.

Definition concat_bytes (l : list (N * string)) : string :=
  fold_right (fun x acc => (snd x ++ acc)%string) EmptyString l.

(** [strings.TrimSpace]: [s] without its leading and trailing runes that
    satisfy [unicode.IsSpace]. *)
Definition TrimSpace (s : string) : string :=
  let sp := fun x : N * string => IsSpace (fst x) in
  concat_bytes (rev (dropWhile sp (rev (dropWhile sp (runes s))))).

(** [strings.Split] with a separator of one byte, which is how the
    validator calls it: the pieces of [s] between the separators, never
    the empty list. *)
Fixpoint Split (s : string) (sep : ascii) : list string :=
  match s with
  | EmptyString => [EmptyString]
  | String c s' =>
    if Ascii.eqb c sep then EmptyString :: Split s' sep
    else
      match Split s' sep with
      | p :: ps => String c p :: ps
      | [] => [String c EmptyString]
      end
  end.

(** [strings.Join]. *)
Fixpoint Join (elems : list string) (sep : string) : string :=
  match elems with
  | [] => EmptyString
  | [e] => e
  | e :: rest => (e ++ sep ++ Join rest sep)%string
  end.

End GoString.

Import GoString.


(** ** Regular expressions: the two patterns the validator compiles

    [regexp.MustCompile] is applied to two literal patterns only.  They are
    written here as syntax trees over runes and matched by derivatives.
    Both patterns are anchored with [^] and [$] and compiled without flags,
    so [MatchString] holds exactly when the whole text is in the language. *)

Module Regexp.

Record CharClass := mkClass { negated : bool; ranges : list (N * N) }.

Definition inClass (c : CharClass) (r : N) : bool :=
  xorb (negated c)
       (existsb (fun lh => (fst lh <=? r)%N && (r <=? snd lh)%N) (ranges c)).

Inductive Regexp :=
| Void
| Eps
| Class (c : CharClass)
| Cat (a b : Regexp)
| Alt (a b : Regexp)
| Star (a : Regexp).

Fixpoint nullable (e : Regexp) : bool :=
  match e with
  | Void => false
  | Eps => true
  | Class _ => false
  | Cat a b => nullable a && nullable b
  | Alt a b => nullable a || nullable b
  | Star _ => true
  end.

Definition cat (a b : Regexp) : Regexp :=
  match a, b with
  | Void, _ => Void
  | _, Void => Void
  | Eps, _ => b
  | _, _ => Cat a b
  end.

Definition alt (a b : Regexp) : Regexp :=
  match a, b with
  | Void, _ => b
  | _, Void => a
  | _, _ => Alt a b
  end.

Fixpoint deriv (r : N) (e : Regexp) : Regexp :=
  match e with
  | Void => Void
  | Eps => Void
  | Class c => if inClass c r then Eps else Void
  | Cat a b =>
    if nullable a then alt (cat (deriv r a) b) (deriv r b)
    else cat (deriv r a) b
  | Alt a b => alt (deriv r a) (deriv r b)
  | Star a => cat (deriv r a) (Star a)
  end.

Fixpoint matches (e : Regexp) (text : list N) : bool :=
  match text with
  | [] => nullable e
  | r :: text' => matches (deriv r e) text'
  end.

Definition MatchString (e : Regexp) (s : string) : bool :=
  matches e (codepoints s).

(** Notation of the pattern language. *)
Definition rng (lo hi : ascii) : N * N := (byte_of lo, byte_of hi).
Definition one (c : ascii) : N * N := rng c c.
Definition set (l : list (N * N)) : Regexp := Class (mkClass false l).
Definition notset (l : list (N * N)) : Regexp := Class (mkClass true l).
Definition chr (c : ascii) : Regexp := set [one c].
Definition plus (e : Regexp) : Regexp := Cat e (Star e).
Definition opt (e : Regexp) : Regexp := Alt e Eps.

Fixpoint lit (s : string) : Regexp :=
  match s with
  | EmptyString => Eps
  | String c s' => Cat (chr c) (lit s')
  end.

(** [.] without the [s] flag: any rune but the newline. *)
Definition dot : Regexp := notset [(10, 10)%N].

(** [\s], the Perl class [[\t\n\f\r ]]. *)
Definition perl_space : list (N * N) :=
  [(9, 10)%N; (12, 13)%N; (32, 32)%N].

Definition alnum : list (N * N) :=
  [rng "a" "z"; rng "A" "Z"; rng "0" "9"]%char.

(** [^[a-zA-Z0-9._%+-]+@[a-zA-Z0-9.-]+\.[a-zA-Z]{2,}$] *)
Definition emailRegex : Regexp :=
  Cat (plus (set (alnum ++ [one "."; one "_"; one "%"; one "+"; one "-"]%char)))
   (Cat (chr "@")
    (Cat (plus (set (alnum ++ [one "."; one "-"]%char)))
     (Cat (chr ".")
      (let alpha := set [rng "a" "z"; rng "A" "Z"]%char in
       Cat alpha (Cat alpha (Star alpha)))))).

(** [^https?://[^\s/$.?#].[^\s]*$] *)
Definition urlRegex : Regexp :=
  Cat (lit "http")
   (Cat (opt (chr "s"))
    (Cat (lit "://")
     (Cat (notset (perl_space ++ [one "/"; one "$"; one "."; one "?"; one "#"]%char))
      (Cat dot (Star (notset perl_space)))))).

End Regexp.

(** ** [fmt.Sscanf] with the format [%d] *)

Module Fmt.

(** [ss.SkipSpace] of a scan that does not treat newlines as space: [None]
    is the scan error "unexpected newline". *)
Fixpoint SkipSpace (input : list N) : option (list N) :=
  match input with
  | [] => Some []
  | r :: rest =>
    if (r =? 13)%N && (match rest with n :: _ => (n =? 10)%N | [] => false end)
    then SkipSpace rest
    else if (r =? 10)%N then None
    else if IsSpace r then SkipSpace rest
    else Some input
  end.

Definition isDigit (r : N) : bool := (48 <=? r)%N && (r <=? 57)%N.

Fixpoint takeDigits (input : list N) : list N :=
  match input with
  | r :: rest => if isDigit r then r :: takeDigits rest else []
  | [] => []
  end.

Definition decimal (digits : list N) : Z :=
  fold_left (fun acc d => (10 * acc + (Z.of_N d - 48))%Z) digits 0%Z.

(** The size of [int]; the platform is a 64-bit one. *)
Definition intBits : Z := 64.

(** [ss.scanInt] for the verb [d]: spaces, an optional sign, then at least
    one decimal digit; [strconv.ParseInt] of the token fails when the
    number does not fit.  Whatever follows the digits stays unread. *)
Definition scanInt (input : list N) : option Z :=
  match SkipSpace input with
  | None => None
  | Some [] => None
  | Some ((r :: rest) as input') =>
    let '(negative, input'') :=
      if (r =? 43)%N then (false, rest)
      else if (r =? 45)%N then (true, rest)
      else (false, input') in
    match takeDigits input'' with
    | [] => None
    | digits =>
      let i := if negative then (- decimal digits)%Z else decimal digits in
      if ((- 2 ^ (intBits - 1) <=? i) && (i <=? 2 ^ (intBits - 1) - 1))%Z
      then Some i
      else None
    end
  end.

(** [fmt.Sscanf(str, "%d", &result)]: the scanned integer, [None] when the
    scan fails and leaves [result] as it was. *)
Definition Sscanf_d (str : string) : option Z :=
  match SkipSpace (codepoints str) with
  | None => None
  | Some input => scanInt input
  end.

End Fmt.

Import Regexp Fmt.

(** ** Values as [reflect] sees them *)

Module Reflect.

Inductive Kind :=
| KInvalid | KBool
| KInt | KInt8 | KInt16 | KInt32 | KInt64
| KUint | KUint8 | KUint16 | KUint32 | KUint64 | KUintptr
| KFloat32 | KFloat64 | KComplex64 | KComplex128
| KArray | KChan | KFunc | KInterface | KMap | KPtr | KSlice
| KString | KStruct | KUnsafePointer.

Inductive IntType := TInt | TInt8 | TInt16 | TInt32 | TInt64.
Inductive UintType := TUint | TUint8 | TUint16 | TUint32 | TUint64 | TUintptr.
Inductive FloatType := TFloat32 | TFloat64.
Inductive ComplexType := TComplex64 | TComplex128.

(** A field of a struct: [reflect.StructField] with the field's value.
    [PkgPath] is empty for an exported field; [Tag_validate] is what
    [Tag.Get("validate")] returns, empty when the tag has no such key;
    [fieldValue] is what [Field(i).Interface()] returns. *)
Record StructField (V : Type) := mkField {
  Name : string;
  PkgPath : string;
  Tag_validate : string;
  fieldValue : V
}.
Arguments mkField {V}.
Arguments Name {V}.
Arguments PkgPath {V}.
Arguments Tag_validate {V}.
Arguments fieldValue {V}.

(** What an [interface{}] can hold.  [VNil] is the nil interface.  A text
    value records whether its type is [string] itself ([named = false]) or
    a defined type over it.  [VInterface] is a variable of interface type,
    which reflection only meets behind a pointer.  Floating-point and
    complex numbers are kept as their bits. *)
#[warnings="-register-all"]
Inductive Value :=
| VNil
| VBool (b : bool)
| VInt (t : IntType) (n : Z)
| VUint (t : UintType) (n : Z)
| VFloat (t : FloatType) (bits : Z)
| VComplex (t : ComplexType) (re im : Z)
| VString (named : bool) (s : string)
| VArray (elems : list Value)
| VSlice (elems : list Value)
| VMap (entries : list (Value * Value))
| VPtr (target : option Value)
| VInterface (content : Value)
| VStruct (fields : list (StructField Value))
| VChan (isnil : bool)
| VFunc (isnil : bool)
| VUnsafePointer (addr : Z).

Definition kind (v : Value) : Kind :=
  match v with
  | VNil => KInvalid
  | VBool _ => KBool
  | VInt TInt _ => KInt
  | VInt TInt8 _ => KInt8
  | VInt TInt16 _ => KInt16
  | VInt TInt32 _ => KInt32
  | VInt TInt64 _ => KInt64
  | VUint TUint _ => KUint
  | VUint TUint8 _ => KUint8
  | VUint TUint16 _ => KUint16
  | VUint TUint32 _ => KUint32
  | VUint TUint64 _ => KUint64
  | VUint TUintptr _ => KUintptr
  | VFloat TFloat32 _ => KFloat32
  | VFloat TFloat64 _ => KFloat64
  | VComplex TComplex64 _ _ => KComplex64
  | VComplex TComplex128 _ _ => KComplex128
  | VString _ _ => KString
  | VArray _ => KArray
  | VSlice _ => KSlice
  | VMap _ => KMap
  | VPtr _ => KPtr
  | VInterface _ => KInterface
  | VStruct _ => KStruct
  | VChan _ => KChan
  | VFunc _ => KFunc
  | VUnsafePointer _ => KUnsafePointer
  end.

(** The accessors, on the kinds for which the validator calls them. *)
Definition IsNil (v : Value) : bool :=
  match v with
  | VPtr None => true
  | VInterface VNil => true
  | VChan b | VFunc b => b
  | _ => false
  end.

Definition Elem (v : Value) : Value :=
  match v with
  | VPtr (Some t) => t
  | VInterface c => c
  | _ => VNil
  end.

Definition String_ (v : Value) : string :=
  match v with
  | VString _ s => s
  | _ => EmptyString
  end.

Definition Len (v : Value) : Z :=
  match v with
  | VString _ s => Z.of_nat (String.length s)
  | VArray l | VSlice l => Z.of_nat (List.length l)
  | VMap m => Z.of_nat (List.length m)
  | _ => 0
  end.

Definition Int (v : Value) : Z :=
  match v with
  | VInt _ n => n
  | _ => 0
  end.

Definition fieldsOf (v : Value) : list (StructField Value) :=
  match v with
  | VStruct fs => fs
  | _ => []
  end.

Definition IsExported {V} (f : StructField V) : bool :=
  String.eqb (PkgPath f) EmptyString.

(** The type assertion [value.(string)]. *)
Definition assertString (v : Value) : option string :=
  match v with
  | VString false s => Some s
  | _ => None
  end.

End Reflect.

Import Reflect.

(** ** The validator *)

Local Open Scope string_scope.

Module Validation.

(** What [regexp.Compile] returns for a pattern: a matcher, or the text
    of the parse error. *)
Inductive Compiled :=
| CompileOk (matchString : string -> bool)
| CompileErr (err : string).

(** [parseInt]: a string to an int, 0 by default. *)
Definition parseInt (str : string) : Z :=
  if String.eqb str "" then 0%Z
  else
    match Sscanf_d str with
    | Some result => result
    | None => 0%Z
    end.

Section FieldValidator.

(** The pattern rule hands its parameter to the regular-expression
    library. *)
Variable regexp_Compile : string -> Compiled.

Definition validateRequired (name : string) (value : Value) : option string :=
  let val := value in
  match kind val with
  | KString =>
    if String.eqb (String_ val) "" then Some ("field '" ++ name ++ "' is required")
    else None
  | KSlice | KMap | KArray =>
    if (Len val =? 0)%Z then Some ("field '" ++ name ++ "' is required")
    else None
  | KPtr | KInterface =>
    if IsNil val then Some ("field '" ++ name ++ "' is required")
    else None
  | KInvalid => Some ("field '" ++ name ++ "' is required")
  | _ => None
  end.

Definition validateMin (name : string) (value : Value) (minStr : string)
  : option string :=
  let val := value in
  match kind val with
  | KString =>
    if (Z.of_nat (String.length (String_ val)) <? parseInt minStr)%Z
    then Some ("field '" ++ name ++ "' must be at least " ++ minStr ++ " characters")
    else None
  | KSlice | KArray =>
    if (Len val <? parseInt minStr)%Z
    then Some ("field '" ++ name ++ "' must have at least " ++ minStr ++ " items")
    else None
  | KInt | KInt8 | KInt16 | KInt32 | KInt64 =>
    if (Int val <? parseInt minStr)%Z
    then Some ("field '" ++ name ++ "' must be at least " ++ minStr)
    else None
  | _ => None
  end.

Definition validateMax (name : string) (value : Value) (maxStr : string)
  : option string :=
  let val := value in
  match kind val with
  | KString =>
    if (Z.of_nat (String.length (String_ val)) >? parseInt maxStr)%Z
    then Some ("field '" ++ name ++ "' must be at most " ++ maxStr ++ " characters")
    else None
  | KSlice | KArray =>
    if (Len val >? parseInt maxStr)%Z
    then Some ("field '" ++ name ++ "' must have at most " ++ maxStr ++ " items")
    else None
  | KInt | KInt8 | KInt16 | KInt32 | KInt64 =>
    if (Int val >? parseInt maxStr)%Z
    then Some ("field '" ++ name ++ "' must be at most " ++ maxStr)
    else None
  | _ => None
  end.

Definition validateEmail (name : string) (value : Value) : option string :=
  match assertString value with
  | None => Some ("field '" ++ name ++ "' must be a string for email validation")
  | Some str =>
    if negb (MatchString emailRegex str)
    then Some ("field '" ++ name ++ "' must be a valid email address")
    else None
  end.

Definition validateURL (name : string) (value : Value) : option string :=
  match assertString value with
  | None => Some ("field '" ++ name ++ "' must be a string for URL validation")
  | Some str =>
    if String.eqb str "" then None
    else if negb (MatchString urlRegex str)
    then Some ("field '" ++ name ++ "' must be a valid URL")
    else None
  end.

Definition validatePattern (name : string) (value : Value) (pattern : string)
  : option string :=
  match assertString value with
  | None => Some ("field '" ++ name ++ "' must be a string for pattern validation")
  | Some str =>
    match regexp_Compile pattern with
    | CompileErr err => Some ("invalid pattern for field '" ++ name ++ "': " ++ err)
    | CompileOk matchString =>
      if negb (matchString str)
      then Some ("field '" ++ name ++ "' does not match required pattern")
      else None
    end
  end.

Definition applyRule (name : string) (value : Value) (ruleName ruleValue : string)
  : option string :=
  if String.eqb ruleName "required" then validateRequired name value
  else if String.eqb ruleName "min" then validateMin name value ruleValue
  else if String.eqb ruleName "max" then validateMax name value ruleValue
  else if String.eqb ruleName "email" then validateEmail name value
  else if String.eqb ruleName "url" then validateURL name value
  else if String.eqb ruleName "pattern" then validatePattern name value ruleValue
  else Some ("unknown validation rule: " ++ ruleName).

(** [parts[0]], and [parts[1]] when there is one, of a rule split at [=]. *)
Definition ruleNameOf (rule : string) : string :=
  nth 0 (Split rule "=") "".

Definition ruleValueOf (rule : string) : string :=
  let parts := Split rule "=" in
  if (1 <? List.length parts)%nat then nth 1 parts "" else "".

(** The loop of [validateField] over the rules of the tag. *)
Fixpoint validateRules (name : string) (value : Value) (rules : list string)
  (errors : list string) : list string :=
  match rules with
  | [] => errors
  | rule :: rest =>
    let rule := TrimSpace rule in
    if String.eqb rule "" then validateRules name value rest errors
    else
      match applyRule name value (ruleNameOf rule) (ruleValueOf rule) with
      | Some err => validateRules name value rest (errors ++ [err])%list
      | None => validateRules name value rest errors
      end
  end.

Definition validateField (name : string) (value : Value) (tag : string)
  : list string :=
  validateRules name value (Split tag ",") [].

(** The loop of [Validate] over the fields of the struct. *)
Fixpoint validateFields (fields : list (StructField Value)) (errors : list string)
  : list string :=
  match fields with
  | [] => errors
  | fieldType :: rest =>
    if negb (IsExported fieldType) then validateFields rest errors
    else
      let tag := Tag_validate fieldType in
      if String.eqb tag "" then validateFields rest errors
      else
        let fieldErrors :=
          validateField (Name fieldType) (fieldValue fieldType) tag in
        validateFields rest (errors ++ fieldErrors)%list
  end.

Definition NilTarget : string := "validation target cannot be nil".
Definition NotAStruct : string := "validation target must be a struct".

(** The head of [Validate]: the struct to validate, or the error the
    function returns before it looks at any field. *)
Definition target (data : Value) : string + Value :=
  let value := data in
  match kind value with
  | KPtr =>
    if IsNil value then inl NilTarget
    else
      let value := Elem value in
      match kind value with
      | KStruct => inr value
      | _ => inl NotAStruct
      end
  | KStruct => inr value
  | _ => inl NotAStruct
  end.

Definition Validate (data : Value) : option string :=
  match target data with
  | inl err => Some err
  | inr value =>
    let errors := validateFields (fieldsOf value) [] in
    if (0 <? List.length errors)%nat
    then Some ("validation failed: " ++ Join errors "; ")
    else None
  end.

End FieldValidator.

End Validation.

Import Validation.

(** ** Numbers as text: the parts of [strconv], [fmt] and [encoding/hex]
    that the configuration store and the identifier generators call *)

Module Strconv.

Definition bytes (s : string) : list N := map byte_of (list_ascii_of_string s).

(** The digit table ["0123456789abcdefghijklmnopqrstuvwxyz"]. *)
Definition digitChar (d : Z) : ascii :=
  if (d <? 10)%Z then ascii_of_N (Z.to_N (48 + d))
  else ascii_of_N (Z.to_N (87 + d)).

(** [formatBits]: the digits of [u] in the given base are written in
    front of what the buffer [a] already holds, the last digit first. *)
Fixpoint formatBits (fuel : nat) (base : Z) (u : Z) (a : string) : string :=
  match fuel with
  | O => a
  | S fuel' =>
    let a' := String (digitChar (u mod base)) a in
    if (u <? base)%Z then a' else formatBits fuel' base (u / base) a'
  end.

(** [strconv.FormatInt] of a 64-bit integer, which is also what the verbs
    [%d] (base 10) and [%x] (base 16) of [fmt] print for an integer. *)
Definition FormatInt (i : Z) (base : Z) : string :=
  if (i <? 0)%Z then String "-" (formatBits 64 base (- i) "")
  else formatBits 64 base i "".

Definition Itoa (i : Z) : string := FormatInt i 10.

Inductive NumError := ErrSyntax | ErrRange.

Definition maxUint64 : Z := 2 ^ 64 - 1.

(** The loop of [strconv.ParseUint] for base 10 and 64 bits, [n] being
    the unsigned number read so far. *)
Fixpoint parseUintLoop (s : list N) (n : Z) : NumError + Z :=
  match s with
  | [] => inr n
  | c :: rest =>
    if negb (isDigit c) then inl ErrSyntax
    else
      let d := (Z.of_N c - 48)%Z in
      if (n >=? maxUint64 / 10 + 1)%Z then inl ErrRange
      else
        let n10 := (n * 10)%Z in
        let n1 := ((n10 + d) mod 2 ^ 64)%Z in
        if (n1 <? n10)%Z || (n1 >? maxUint64)%Z then inl ErrRange
        else parseUintLoop rest n1
  end.

Definition ParseUint (s : list N) : NumError + Z :=
  match s with
  | [] => inl ErrSyntax
  | _ => parseUintLoop s 0
  end.

(** [strconv.Atoi], that is [ParseInt(s, 10, 0)] on a 64-bit platform. *)
Definition Atoi (s : string) : NumError + Z :=
  match bytes s with
  | [] => inl ErrSyntax
  | c :: rest =>
    let '(neg, digits) :=
      if (c =? 43)%N then (false, rest)
      else if (c =? 45)%N then (true, rest)
      else (false, c :: rest) in
    match ParseUint digits with
    | inl ErrSyntax => inl ErrSyntax
    | inl ErrRange => inl ErrRange
    | inr un =>
      let cutoff := (2 ^ 63)%Z in
      if negb neg && (un >=? cutoff)%Z then inl ErrRange
      else if neg && (un >? cutoff)%Z then inl ErrRange
      else inr (if neg then (- un)%Z else un)
    end
  end.

(** [hex.EncodeToString], and the verb [%x] of [fmt] on a byte slice: two
    digits of ["0123456789abcdef"] a byte. *)
Fixpoint EncodeToString (src : string) : string :=
  match src with
  | EmptyString => EmptyString
  | String c rest =>
    let v := byte_of c in
    String (digitChar (Z.of_N (N.shiftr v 4)))
      (String (digitChar (Z.of_N (N.land v 15))) (EncodeToString rest))
  end.

End Strconv.

Import Strconv.

(** ** The identifier generators of [providers/id_generator.go]

    A generator reads the system's random source and, when that fails,
    the clock.  Both are inputs here: [random] is what [rand.Read] wrote,
    [None] when it returned an error, and [now] is
    [time.Now().UnixNano()].  A run that panics yields [None]. *)

Module Providers.

(** What a buffer made by [make([]byte, n)] holds once [rand.Read] has
    filled it: [n] bytes. *)
Fixpoint zeros (n : nat) : string :=
  match n with
  | O => EmptyString
  | S n' => String Ascii.zero (zeros n')
  end.

Definition buffer (n : nat) (random : string) : string :=
  take n (random ++ zeros n).

(** The slice expressions [b[i:j]] on a buffer long enough, and [s[:n]],
    which panics when [n] exceeds the length. *)
Definition slice (b : string) (i j : nat) : string := take (j - i) (drop i b).

Definition sliceTo (s : string) (n : Z) : option string :=
  if ((0 <=? n) && (n <=? Z.of_nat (String.length s)))%Z
  then Some (take (Z.to_nat n) s)
  else None.

Module UUIDGenerator.

Definition Generate (random : option string) (now : Z) : string :=
  match random with
  | None => "id-" ++ Itoa now
  | Some r =>
    let bytes := buffer 16 r in
    EncodeToString (slice bytes 0 4) ++ "-" ++
    EncodeToString (slice bytes 4 6) ++ "-" ++
    EncodeToString (slice bytes 6 8) ++ "-" ++
    EncodeToString (slice bytes 8 10) ++ "-" ++
    EncodeToString (slice bytes 10 16)
  end.

End UUIDGenerator.

Module PrefixedIDGenerator.

(** The base of a generator made by [NewPrefixedIDGenerator] is a
    [UUIDGenerator]. *)
Record t := { prefix : string }.

Definition New (prefix : string) : t := {| prefix := prefix |}.

Definition Generate (g : t) (random : option string) (now : Z) : string :=
  let baseID := UUIDGenerator.Generate random now in
  prefix g ++ "-" ++ baseID.

End PrefixedIDGenerator.

Module SimpleIDGenerator.

Record t := { counter : Z; prefix : string }.

Definition New (prefix : string) : t := {| counter := 0; prefix := prefix |}.

(** [counter++] on an [int] of 64 bits. *)
Definition increment (counter : Z) : Z :=
  ((counter + 1 + 2 ^ 63) mod 2 ^ 64 - 2 ^ 63)%Z.

(** The identifier, and the generator as the call leaves it. *)
Definition Generate (g : t) : string * t :=
  let g' := {| counter := increment (counter g); prefix := prefix g |} in
  (prefix g' ++ "-" ++ Itoa (counter g'), g').

(** The identifiers of [n] calls in a row. *)
Fixpoint GenerateN (n : nat) (g : t) : list string * t :=
  match n with
  | O => ([], g)
  | S n' =>
    let '(id, g1) := Generate g in
    let '(ids, g2) := GenerateN n' g1 in
    (id :: ids, g2)
  end.

End SimpleIDGenerator.

Module HexIDGenerator.

Record t := { length : Z }.

Definition New (length : Z) : t :=
  {| length := if (length <=? 0)%Z then 16%Z else length |}.

Definition Generate (g : t) (random : option string) (now : Z) : option string :=
  let n := Z.quot (length g) 2 in
  if (n <? 0)%Z then None
  else
    match random with
    | None => sliceTo (FormatInt now 16) (length g)
    | Some r => sliceTo (EncodeToString (buffer (Z.to_nat n) r)) (length g)
    end.

End HexIDGenerator.

End Providers.

(** ** The configuration store of package [config]

    The [values] map of a [Config] is a finite map from strings to
    strings; a method that writes to it returns the store it leaves.
    The environment block of the process is an input of [LoadFromEnv],
    which reads it through [os.Environ()].  The order in which Go ranges
    over a map is not fixed; [Keys] gives the keys in one order, and
    nothing is stated about which. *)

Module StringMap := FMapList.Make(String_as_OT).
Module StringMapFacts := FMapFacts.WFacts_fun String_as_OT StringMap.
Module StringMapProps := FMapFacts.WProperties_fun String_as_OT StringMap.

(** [os.Environ()] is [syscall.Environ()].  On Unix the package keeps the
    environment block of the process in [envs]; the first call goes
    through it once with [copyenv], which records the first mention of
    each key in the map [env] and clears every later entry with a key
    already seen, and [Environ] returns the entries that are not empty.
    So no key is returned twice, and of several mentions of a key the
    first is the one returned. *)
Module Syscall.

(** The key of an entry: [s[:j]] for the first [j] with [s[j] == '=']. *)
Fixpoint keyOf (s : string) : option string :=
  match s with
  | EmptyString => None
  | String c s' =>
    if Ascii.eqb c "=" then Some EmptyString
    else option_map (String c) (keyOf s')
  end.

(** The loop of [copyenv] from index [i] on: what it leaves of [envs]. *)
Fixpoint copyenv (envs : list string) (i : nat) (env : StringMap.t nat)
  : list string :=
  match envs with
  | [] => []
  | s :: rest =>
    match keyOf s with
    | Some key =>
      if negb (StringMap.mem key env)
      then s :: copyenv rest (S i) (StringMap.add key i env)
      else EmptyString :: copyenv rest (S i) env
    | None => s :: copyenv rest (S i) env
    end
  end.

Definition Environ (envs : list string) : list string :=
  filter (fun env => negb (String.eqb env ""))
         (copyenv envs 0 (StringMap.empty nat)).

End Syscall.

Module Config.

Definition Config : Type := StringMap.t string.

Definition NewConfig : Config := StringMap.empty string.

(** [strings.SplitN(s, sep, 2)] with a separator of one byte. *)
Fixpoint SplitN2 (s : string) (sep : ascii) : list string :=
  match s with
  | EmptyString => [EmptyString]
  | String c s' =>
    if Ascii.eqb c sep then [EmptyString; s']
    else
      match SplitN2 s' sep with
      | p :: ps => String c p :: ps
      | [] => [String c EmptyString]
      end
  end.

Definition Set_ (c : Config) (key value : string) : Config :=
  StringMap.add key value c.

(** [envs] is the environment block of the process. *)
Definition LoadFromEnv (c : Config) (envs : list string) : Config :=
  fold_left
    (fun c env =>
       let pair := SplitN2 env "=" in
       if (List.length pair =? 2)%nat
       then Set_ c (nth 0 pair "") (nth 1 pair "")
       else c)
    (Syscall.Environ envs) c.

Definition Get (c : Config) (key : string) : string :=
  match StringMap.find key c with
  | Some value => value
  | None => ""
  end.

Definition Exists (c : Config) (key : string) : bool :=
  match StringMap.find key c with
  | Some _ => true
  | None => false
  end.

Definition GetWithDefault (c : Config) (key defaultValue : string) : string :=
  match StringMap.find key c with
  | Some value => if negb (String.eqb value "") then value else defaultValue
  | None => defaultValue
  end.

(** The errors of the typed getters.  The text of a parse failure ends
    with the error of [strconv], kept here as its kind. *)
Inductive ConfigError :=
| KeyNotFound (key : string)
| ParseFailed (key : string) (cause : NumError).

Definition GetInt (c : Config) (key : string) : ConfigError + Z :=
  match StringMap.find key c with
  | None => inl (KeyNotFound key)
  | Some value =>
    match Atoi value with
    | inl err => inl (ParseFailed key err)
    | inr intValue => inr intValue
    end
  end.

Definition GetIntWithDefault (c : Config) (key : string) (defaultValue : Z) : Z :=
  match GetInt c key with
  | inl _ => defaultValue
  | inr intValue => intValue
  end.

(** The loop of [GetStringSlice] over the parts of the value. *)
Fixpoint collectParts (parts : list string) (result : list string)
  : list string :=
  match parts with
  | [] => result
  | part :: rest =>
    let trimmed := TrimSpace part in
    if negb (String.eqb trimmed "") then collectParts rest (result ++ [trimmed])%list
    else collectParts rest result
  end.

Definition GetStringSlice (c : Config) (key : string) : list string :=
  match StringMap.find key c with
  | None => []
  | Some value =>
    if String.eqb value "" then []
    else collectParts (Split value ",") []
  end.

Definition GetStringSliceWithDefault (c : Config) (key : string)
  (defaultValue : list string) : list string :=
  let slice := GetStringSlice c key in
  if (List.length slice =? 0)%nat then defaultValue else slice.

(** [GetRequired]: the value, or [None] when the call panics. *)
Definition GetRequired (c : Config) (key : string) : option string :=
  match StringMap.find key c with
  | None => None
  | Some value => if String.eqb value "" then None else Some value
  end.

Definition Keys (c : Config) : list string :=
  map fst (StringMap.elements c).

(** The loop of [Validate] over the required keys. *)
Fixpoint collectMissing (c : Config) (requiredKeys : list string)
  (missing : list string) : list string :=
  match requiredKeys with
  | [] => missing
  | key :: rest =>
    if negb (Exists c key) || String.eqb (Get c key) ""
    then collectMissing c rest (missing ++ [key])%list
    else collectMissing c rest missing
  end.

Definition Validate (c : Config) (requiredKeys : list string) : option string :=
  let missing := collectMissing c requiredKeys [] in
  if (0 <? List.length missing)%nat
  then Some ("missing required configuration keys: " ++ Join missing ", ")
  else None.

End Config.

(** ** Notions used to state the properties *)

(** The rule names that [applyRule] dispatches on. *)
Definition recognized (ruleName : string) : bool :=
  existsb (String.eqb ruleName)
          ["required"; "min"; "max"; "email"; "url"; "pattern"].

(** An error as the list of messages it adds to [errors]. *)
Definition errorList (err : option string) : list string :=
  match err with
  | Some msg => [msg]
  | None => []
  end.


(** A field that [Validate] hands to [validateField]: exported, with a
    rule declaration. *)
Definition validated (f : StructField Value) : bool :=
  IsExported f && negb (String.eqb (Tag_validate f) "").

(** The two ways an input can be told from a struct to validate. *)
Definition isNilPointer (data : Value) : bool :=
  match kind data with
  | KPtr => IsNil data
  | _ => false
  end.

Definition isStruct (v : Value) : bool :=
  match kind v with
  | KStruct => true
  | _ => false
  end.

(** The value behind the pointer, when the input is one. *)
Definition dereferenced (data : Value) : Value :=
  match data with
  | VPtr (Some v) => v
  | _ => data
  end.

(** The kinds for which the [switch] of [validateRequired] has a case,
    and those for which the [switch] of [validateMin] and of [validateMax]
    has one. *)
Definition requiredHasCase (k : Kind) : bool :=
  match k with
  | KString | KSlice | KMap | KArray | KPtr | KInterface | KInvalid => true
  | _ => false
  end.

Definition minMaxHasCase (k : Kind) : bool :=
  match k with
  | KString | KSlice | KArray | KInt | KInt8 | KInt16 | KInt32 | KInt64 => true
  | _ => false
  end.

(** Every violation of a record: field by field in declaration order, and
    within a field rule by rule in declaration order. *)
Definition violations (regexp_Compile : string -> Compiled)
  (fields : list (StructField Value)) : list string :=
  flat_map
    (fun f =>
       flat_map
         (fun rule =>
            if String.eqb (TrimSpace rule) "" then []
            else errorList (applyRule regexp_Compile (Name f) (fieldValue f)
                              (ruleNameOf (TrimSpace rule))
                              (ruleValueOf (TrimSpace rule))))
         (Split (Tag_validate f) ","))
    (filter validated fields).

Fixpoint contains (sep : ascii) (s : string) : bool :=
  match s with
  | EmptyString => false
  | String c s' => Ascii.eqb c sep || contains sep s'
  end.

(** The digits of ["0123456789abcdef"]. *)
Definition isLowerHex (b : N) : bool :=
  isDigit b || ((97 <=? b) && (b <=? 102))%N.

(** The format that the tests of the generators check:
    [^[0-9a-f]{8}-[0-9a-f]{4}-[0-9a-f]{4}-[0-9a-f]{4}-[0-9a-f]{12}$]. *)
Definition lowerHex : Regexp := set [rng "0" "9"; rng "a" "f"]%char.

Fixpoint times (n : nat) (e rest : Regexp) : Regexp :=
  match n with
  | O => rest
  | S n' => Cat e (times n' e rest)
  end.

Definition uuidRegex : Regexp :=
  times 8 lowerHex
    (Cat (chr "-")
       (times 4 lowerHex
          (Cat (chr "-")
             (times 4 lowerHex
                (Cat (chr "-")
                   (times 4 lowerHex
                      (Cat (chr "-") (times 12 lowerHex Eps)))))))).

(** The key that [LoadFromEnv] assigns for an entry of the environment,
    when the entry has a separator. *)
Definition envKey (env : string) : option string :=
  if contains "=" env then Some (nth 0 (Config.SplitN2 env "=") "") else None.

(** The keys that a list of entries assigns, in the order of the list. *)
Definition envKeys (envs : list string) : list string :=
  flat_map (fun env => match envKey env with
                       | Some key => [key]
                       | None => []
                       end) envs.

(** What [Environ] returns of the block from index [i] on, [env] holding
    the keys seen before. *)
Definition environFrom (envs : list string) (i : nat) (env : StringMap.t nat)
  : list string :=
  filter (fun e => negb (String.eqb e "")) (Syscall.copyenv envs i env).

(** What one entry of the environment does to the store. *)
Definition loadEntry (c : Config.Config) (env : string) : Config.Config :=
  match envKey env with
  | Some key => Config.Set_ c key (nth 1 (Config.SplitN2 env "=") "")
  | None => c
  end.

(** What [min] and [max] compare with their parameter: the length of a
    text or of a sequence (slice or array), the value of a signed integer
    ([int], [int8] to [int64]); nothing for the other kinds, the unsigned
    integers among them. *)
Definition measure (v : Value) : option Z :=
  match v with
  | VString _ s => Some (Z.of_nat (String.length s))
  | VSlice l | VArray l => Some (Z.of_nat (List.length l))
  | VInt _ n => Some n
  | _ => None
  end.

(** Two values that the rules cannot tell apart: structs whatever their
    fields, pointers that are not nil whatever they point to, sequences
    and maps of the same length whatever their elements. *)
Definition sameSurface (v v' : Value) : Prop :=
  match v, v' with
  | VStruct _, VStruct _ => True
  | VPtr (Some _), VPtr (Some _) => True
  | VSlice l, VSlice l' => List.length l = List.length l'
  | VArray l, VArray l' => List.length l = List.length l'
  | VMap m, VMap m' => List.length m = List.length m'
  | _, _ => v = v'
  end.



(** One step of [decimal]: the number read so far and the next digit. *)
Definition decimalStep (acc : Z) (d : N) : Z :=
  (10 * acc + (Z.of_N d - 48))%Z.

(** The value of a digit of ["0123456789abcdef"]. *)
Definition unhex (h : ascii) : N :=
  let b := byte_of h in if (b <? 58)%N then (b - 48)%N else (b - 87)%N.

(** A regular-expression library that compiles nothing, for the examples
    that do not reach the pattern rule. *)
Definition noRegexp : string -> Compiled := fun _ => CompileErr "unsupported".

(** The records of the repository's tests.  The one pattern they declare,
    [^[a-zA-Z0-9_]+$], is given to the library stand-in [testRegexp] as a
    syntax tree. *)
Definition usernameRegex : Regexp :=
  plus (set (alnum ++ [one "_"%char])).

Definition testRegexp (pattern : string) : Compiled :=
  if String.eqb pattern "^[a-zA-Z0-9_]+$"
  then CompileOk (MatchString usernameRegex)
  else CompileErr "unsupported".

Definition TestUser (Name Email : string) (Age : Z) (Website Username : string)
  : Value :=
  VStruct
    [mkField "Name" "" "required,min=2,max=50" (VString false Name);
     mkField "Email" "" "required,email" (VString false Email);
     mkField "Age" "" "min=18,max=120" (VInt TInt Age);
     mkField "Website" "" "url" (VString false Website);
     mkField "Username" "" "required,pattern=^[a-zA-Z0-9_]+$"
       (VString false Username)].

Definition TestProduct (Title Description : string) (Tags : list string)
  (Price : Z) : Value :=
  VStruct
    [mkField "Title" "" "required,min=3" (VString false Title);
     mkField "Description" "" "max=500" (VString false Description);
     mkField "Tags" "" "min=1,max=10" (VSlice (map (VString false) Tags));
     mkField "Price" "" "min=0" (VInt TInt Price)].

(** ** The loops as concatenations *)

Section Loops.

Variable regexp_Compile : string -> Compiled.

Abbreviation validateRules := (Validation.validateRules regexp_Compile).
Abbreviation validateField := (Validation.validateField regexp_Compile).
Abbreviation validateFields := (Validation.validateFields regexp_Compile).
Abbreviation applyRule := (Validation.applyRule regexp_Compile).

Lemma validateRules_cons name v rule rest errors :
  validateRules name v (rule :: rest) errors =
  if String.eqb (TrimSpace rule) "" then validateRules name v rest errors
  else validateRules name v rest
         (errors ++ errorList (applyRule name v (ruleNameOf (TrimSpace rule))
                                 (ruleValueOf (TrimSpace rule))))%list.
Proof.
  cbn [Validation.validateRules].
  destruct (String.eqb (TrimSpace rule) ""); [reflexivity|].
  destruct (applyRule name v _ _); cbn [errorList]; [reflexivity|].
  now rewrite app_nil_r.
Qed.

Lemma validateRules_acc name v rules :
  forall errors,
    validateRules name v rules errors =
    (errors ++ validateRules name v rules [])%list.
Proof.
  induction rules as [|rule rest IH]; intros errors.
  - cbn. now rewrite app_nil_r.
  - rewrite !validateRules_cons.
    destruct (String.eqb (TrimSpace rule) ""); [apply IH|].
    rewrite IH, (IH ([] ++ _)%list). cbn [app]. now rewrite app_assoc.
Qed.

Lemma validateRules_single name v rule :
  validateRules name v [rule] [] =
  if String.eqb (TrimSpace rule) "" then []
  else errorList (applyRule name v (ruleNameOf (TrimSpace rule))
                    (ruleValueOf (TrimSpace rule))).
Proof.
  rewrite validateRules_cons.
  destruct (String.eqb (TrimSpace rule) ""); reflexivity.
Qed.

Lemma validateRules_app name v rs1 rs2 :
  validateRules name v (rs1 ++ rs2) [] =
  (validateRules name v rs1 [] ++ validateRules name v rs2 [])%list.
Proof.
  induction rs1 as [|rule rest IH]; [reflexivity|].
  cbn [app]. rewrite !validateRules_cons.
  destruct (String.eqb (TrimSpace rule) ""); [exact IH|].
  rewrite validateRules_acc, (validateRules_acc _ _ rest ([] ++ _)%list).
  now rewrite IH, app_assoc.
Qed.

Lemma validateRules_flat_map name v rules :
  validateRules name v rules [] =
  flat_map (fun rule => validateRules name v [rule] []) rules.
Proof.
  induction rules as [|rule rest IH]; [reflexivity|].
  change (rule :: rest) with ([rule] ++ rest)%list.
  rewrite validateRules_app, IH. reflexivity.
Qed.

Lemma validateFields_cons f rest errors :
  validateFields (f :: rest) errors =
  if validated f
  then validateFields rest
         (errors ++ validateField (Name f) (fieldValue f) (Tag_validate f))%list
  else validateFields rest errors.
Proof.
  cbn [Validation.validateFields]. unfold validated.
  destruct (IsExported f); cbn [negb andb]; [|reflexivity].
  destruct (String.eqb (Tag_validate f) ""); reflexivity.
Qed.

Lemma validateFields_acc fields :
  forall errors,
    validateFields fields errors = (errors ++ validateFields fields [])%list.
Proof.
  induction fields as [|f rest IH]; intros errors.
  - cbn. now rewrite app_nil_r.
  - rewrite !validateFields_cons. destruct (validated f); [|apply IH].
    rewrite IH, (IH ([] ++ _)%list). cbn [app]. now rewrite app_assoc.
Qed.

Lemma validateFields_app fs1 fs2 :
  validateFields (fs1 ++ fs2) [] =
  (validateFields fs1 [] ++ validateFields fs2 [])%list.
Proof.
  induction fs1 as [|f rest IH]; [reflexivity|].
  cbn [app]. rewrite !validateFields_cons. destruct (validated f); [|exact IH].
  rewrite validateFields_acc, (validateFields_acc rest ([] ++ _)%list).
  now rewrite IH, app_assoc.
Qed.

Lemma validateFields_filter fields :
  validateFields fields [] = validateFields (filter validated fields) [].
Proof.
  induction fields as [|f rest IH]; [reflexivity|].
  cbn [filter]. rewrite validateFields_cons.
  destruct (validated f) eqn:E; [|exact IH].
  rewrite validateFields_cons, E.
  rewrite validateFields_acc, (validateFields_acc (filter _ _) ([] ++ _)%list).
  now rewrite IH.
Qed.

Lemma validateFields_violations fields :
  validateFields fields [] = violations regexp_Compile fields.
Proof.
  unfold violations.
  induction fields as [|f rest IH]; [reflexivity|].
  rewrite validateFields_cons. cbn [filter].
  destruct (validated f); [|exact IH].
  rewrite validateFields_acc, IH. cbn [app flat_map]. f_equal.
  unfold Validation.validateField. rewrite validateRules_flat_map.
  apply flat_map_ext. intros rule. apply validateRules_single.
Qed.

End Loops.

(** ** Unknown rules and the order of evaluation *)

Lemma applyRule_unrecognized rc name v ruleName ruleValue :
  recognized ruleName = false ->
  applyRule rc name v ruleName ruleValue =
  Some ("unknown validation rule: " ++ ruleName).
Proof.
  unfold recognized, applyRule. cbn [existsb]. intros H.
  repeat (apply orb_false_elim in H; destruct H as [-> H]).
  reflexivity.
Qed.

(** C1, as stated, does not hold: on a text field that is empty and
    declares [bogus,required], the rule [required], declared after the
    unrecognized [bogus], is still evaluated and its violation is part of
    the field's outcome and of the aggregate error. *)
Lemma unknown_rule_does_not_end_the_field :
  validateField noRegexp "F" (VString false "") "bogus,required"
  = ["unknown validation rule: bogus"; "field 'F' is required"]
  /\ In "field 'F' is required"
        (validateField noRegexp "F" (VString false "") "bogus,required")
  /\ Validate noRegexp
       (VStruct [mkField "F" "" "bogus,required" (VString false "")])
     = Some "validation failed: unknown validation rule: bogus; field 'F' is required".
Proof.
  repeat split; try reflexivity.
  vm_compute. right. left. reflexivity.
Qed.

(** C1, amended: an unrecognized rule name yields the message
    [unknown validation rule: <name>] at the rule's place, and the
    evaluation of the field goes on: the rules declared before it and the
    rules declared after it contribute exactly what they contribute on
    their own. *)
Theorem unknown_rule_reported_in_place rc name v tag rs1 r rs2 :
  Split tag "," = (rs1 ++ r :: rs2)%list ->
  String.eqb (TrimSpace r) "" = false ->
  recognized (ruleNameOf (TrimSpace r)) = false ->
  validateField rc name v tag =
  (validateRules rc name v rs1 []
   ++ [("unknown validation rule: " ++ ruleNameOf (TrimSpace r))%string]
   ++ validateRules rc name v rs2 [])%list.
Proof.
  intros Hsplit Hne Hunk. unfold validateField. rewrite Hsplit.
  change (r :: rs2) with ([r] ++ rs2)%list.
  rewrite !validateRules_app, validateRules_single, Hne.
  now rewrite (applyRule_unrecognized _ _ _ _ _ Hunk).
Qed.

Lemma unknown_rule_reported_in_place_witness :
  validateField noRegexp "F" (VString false "") "min=1,bogus,required" =
  (validateRules noRegexp "F" (VString false "") ["min=1"] []
   ++ [("unknown validation rule: " ++ ruleNameOf (TrimSpace "bogus"))%string]
   ++ validateRules noRegexp "F" (VString false "") ["required"] [])%list.
Proof.
  apply (unknown_rule_reported_in_place noRegexp "F" (VString false "")
           "min=1,bogus,required" ["min=1"] "bogus" ["required"]);
    reflexivity.
Defined.

(** C2: the outcome of a field is the concatenation, in declared order, of
    what each rule of its declaration yields when it is evaluated alone,
    whatever the rules before it yielded; so the message of every failing
    rule is in the outcome. *)
Theorem every_rule_of_a_field_is_evaluated rc name v tag :
  validateField rc name v tag =
  flat_map (fun rule => validateRules rc name v [rule] []) (Split tag ",")
  /\ (forall rs1 rule rs2,
         Split tag "," = (rs1 ++ rule :: rs2)%list ->
         validateField rc name v tag =
         (validateRules rc name v rs1 [] ++ validateRules rc name v [rule] []
          ++ validateRules rc name v rs2 [])%list)
  /\ (forall rule msg,
         In rule (Split tag ",") ->
         String.eqb (TrimSpace rule) "" = false ->
         applyRule rc name v (ruleNameOf (TrimSpace rule))
           (ruleValueOf (TrimSpace rule)) = Some msg ->
         In msg (validateField rc name v tag)).
Proof.
  unfold validateField. split; [apply validateRules_flat_map|]. split.
  - intros rs1 rule rs2 ->.
    change (rule :: rs2) with ([rule] ++ rs2)%list.
    now rewrite !validateRules_app.
  - intros rule msg Hin Hne Hmsg. rewrite validateRules_flat_map.
    apply in_flat_map. exists rule. split; [exact Hin|].
    rewrite validateRules_single, Hne, Hmsg. now left.
Qed.

Lemma every_rule_of_a_field_is_evaluated_witness :
  In "field 'F' must be at least 5 characters"
     (validateField noRegexp "F" (VString false "") "required,min=5,email").
Proof.
  apply (proj2 (proj2 (every_rule_of_a_field_is_evaluated noRegexp "F"
                         (VString false "") "required,min=5,email"))
           "min=5").
  - vm_compute. right. left. reflexivity.
  - reflexivity.
  - reflexivity.
Defined.

(** ** Numeric parameters *)

Example Sscanf_d_examples :
  Sscanf_d "5" = Some 5%Z /\ Sscanf_d "-3" = Some (-3)%Z
  /\ Sscanf_d "abc" = None /\ Sscanf_d "" = None /\ Sscanf_d "-" = None
  /\ Sscanf_d "5x" = Some 5%Z /\ Sscanf_d " 5" = Some 5%Z
  /\ Sscanf_d "9223372036854775808" = None.
Proof. repeat split; reflexivity. Qed.



Lemma runes_ascii c s :
  (byte_of c <? 128)%N = true ->
  runes (String c s) = (byte_of c, String c "") :: runes s.
Proof.
  intros H. unfold runes. cbn [String.length runesFrom].
  unfold DecodeRuneInString. cbn [String.length Nat.ltb Nat.leb].
  change (byteAt (String c s) 0) with (byte_of c). rewrite H.
  reflexivity.
Qed.





(** ** The target of a validation *)

Lemma target_nil_pointer data :
  isNilPointer data = true -> target data = inl NilTarget.
Proof.
  unfold isNilPointer, target. destruct (kind data); try discriminate.
  now intros ->.
Qed.

Lemma target_not_a_struct data :
  isNilPointer data = false -> isStruct (dereferenced data) = false ->
  target data = inl NotAStruct.
Proof.
  unfold isNilPointer, isStruct, target.
  destruct data as [| | t n | t n | t n | t x y | | | | | [p|] | | | | |];
    try destruct t; cbn [kind IsNil Elem dereferenced];
    try reflexivity; try discriminate.
  intros _. now destruct (kind p).
Qed.

Lemma target_struct data :
  isNilPointer data = false -> isStruct (dereferenced data) = true ->
  target data = inr (dereferenced data).
Proof.
  unfold isNilPointer, isStruct, target.
  destruct data as [| | t n | t n | t n | t x y | | | | | [p|] | | | | |];
    try destruct t; cbn [kind IsNil Elem dereferenced];
    try reflexivity; try discriminate.
  intros _. now destruct (kind p).
Qed.

(** The nil interface, an input that holds nothing at all, is no pointer:
    it is refused as not a struct, not as a nil target. *)
Lemma nil_interface_is_not_a_nil_target :
  isNilPointer VNil = false
  /\ Validate noRegexp VNil = Some NotAStruct
  /\ Validate noRegexp VNil <> Some NilTarget.
Proof. repeat split; discriminate. Qed.

(** C4: a nil pointer is refused with [NilTarget], and every other input
    whose dereferenced value is not a struct, the nil interface among
    them, is refused with [NotAStruct]; the two errors differ, and in both
    cases [Validate] returns from its head, before the loop over the
    fields, whatever the regular-expression library is. *)
Theorem nil_target_and_not_a_struct rc :
  NilTarget = "validation target cannot be nil"
  /\ NotAStruct = "validation target must be a struct"
  /\ NilTarget <> NotAStruct
  /\ (forall data,
         isNilPointer data = true ->
         target data = inl NilTarget /\ Validate rc data = Some NilTarget)
  /\ (forall data,
         isNilPointer data = false ->
         isStruct (dereferenced data) = false ->
         target data = inl NotAStruct /\ Validate rc data = Some NotAStruct)
  /\ (forall data, isNilPointer data = true <-> data = VPtr None)
  /\ Validate rc VNil = Some NotAStruct.
Proof.
  split; [reflexivity|]. split; [reflexivity|]. split; [discriminate|].
  split; [|split; [|split]].
  - intros data H. unfold Validate. now rewrite (target_nil_pointer _ H).
  - intros data H1 H2. unfold Validate.
    now rewrite (target_not_a_struct _ H1 H2).
  - intros data. split.
    + unfold isNilPointer.
      destruct data as [| | t n | t n | t n | t x y | | | | | [p|] | | | | |];
        try destruct t; cbn [kind IsNil]; try discriminate. reflexivity.
    + now intros ->.
  - reflexivity.
Qed.

Lemma nil_target_and_not_a_struct_witness :
  Validate noRegexp (VPtr None) = Some NilTarget
  /\ Validate noRegexp (VString false "not a struct") = Some NotAStruct
  /\ Validate noRegexp (VPtr (Some (VInt TInt 3))) = Some NotAStruct
  /\ Validate noRegexp VNil = Some NotAStruct.
Proof.
  destruct (nil_target_and_not_a_struct noRegexp) as (_ & _ & _ & N & S & _).
  split; [apply (N (VPtr None)); reflexivity|].
  split; [apply (S (VString false "not a struct")); reflexivity|].
  split; [apply (S (VPtr (Some (VInt TInt 3)))); reflexivity|].
  apply (S VNil); reflexivity.
Defined.

(** The nil interface is no pointer: it falls under the second case. *)
Example Validate_nil_interface rc : Validate rc VNil = Some NotAStruct.
Proof. reflexivity. Qed.

(** ** The aggregate result *)

Lemma Validate_struct rc data :
  isNilPointer data = false -> isStruct (dereferenced data) = true ->
  Validate rc data =
  match violations rc (fieldsOf (dereferenced data)) with
  | [] => None
  | errors => Some ("validation failed: " ++ Join errors "; ")
  end.
Proof.
  intros H1 H2. unfold Validate. rewrite (target_struct _ H1 H2).
  rewrite validateFields_violations.
  now destruct (violations rc (fieldsOf (dereferenced data))).
Qed.

Lemma flat_map_nil {A B} (g : A -> list B) (l : list A) :
  (forall x, In x l -> g x = []) -> flat_map g l = [].
Proof.
  induction l as [|x l IH]; intros H; [reflexivity|].
  cbn [flat_map]. rewrite (H x) by now left.
  apply IH. intros y Hy. apply H. now right.
Qed.

Lemma violations_nil rc fields :
  (forall f rule,
      In f fields -> validated f = true ->
      In rule (Split (Tag_validate f) ",") ->
      String.eqb (TrimSpace rule) "" = false ->
      applyRule rc (Name f) (fieldValue f) (ruleNameOf (TrimSpace rule))
        (ruleValueOf (TrimSpace rule)) = None) ->
  violations rc fields = [].
Proof.
  intros H. unfold violations. apply flat_map_nil.
  intros f Hf. apply filter_In in Hf. destruct Hf as [Hf Hv].
  apply flat_map_nil. intros rule Hrule.
  destruct (String.eqb (TrimSpace rule) "") eqn:T; [reflexivity|].
  now rewrite (H f rule Hf Hv Hrule T).
Qed.

(** C5, as stated, does not hold: the message of the aggregate error is
    not the joined violations alone, it starts with a fixed prefix. *)
Lemma aggregate_message_is_prefixed :
  let record := VStruct [mkField "Name" "" "required" (VString false "")] in
  violations noRegexp (fieldsOf record) = ["field 'Name' is required"]
  /\ Validate noRegexp record = Some "validation failed: field 'Name' is required"
  /\ Validate noRegexp record
     <> Some (Join (violations noRegexp (fieldsOf record)) "; ").
Proof.
  cbv zeta. repeat split; try reflexivity. vm_compute. discriminate.
Qed.

(** C5, amended: for a struct, or a pointer to one, in which every rule of
    every validated field is satisfied, [Validate] returns no error; when
    there is a violation it returns one error, whose message is
    [validation failed: ] followed by every violation, in the order of the
    fields and within a field in the order of the rules, joined with
    [; ]. *)
Theorem Validate_aggregates_every_violation rc data :
  isNilPointer data = false ->
  isStruct (dereferenced data) = true ->
  let fields := fieldsOf (dereferenced data) in
  ((forall f rule,
       In f fields -> validated f = true ->
       In rule (Split (Tag_validate f) ",") ->
       String.eqb (TrimSpace rule) "" = false ->
       applyRule rc (Name f) (fieldValue f) (ruleNameOf (TrimSpace rule))
         (ruleValueOf (TrimSpace rule)) = None) ->
   Validate rc data = None)
  /\ (violations rc fields = [] -> Validate rc data = None)
  /\ (violations rc fields <> [] ->
      Validate rc data =
      Some ("validation failed: " ++ Join (violations rc fields) "; ")).
Proof.
  intros H1 H2 fields. rewrite (Validate_struct rc data H1 H2).
  fold fields. split; [|split].
  - intros H. now rewrite (violations_nil rc fields H).
  - now intros ->.
  - intros H. now destruct (violations rc fields).
Qed.

Lemma Validate_aggregates_every_violation_witness :
  Validate noRegexp
    (VPtr (Some (VStruct
       [mkField "Name" "" "required,min=2" (VString false "");
        mkField "Age" "" "min=18" (VInt TInt 17)])))
  = Some "validation failed: field 'Name' is required; field 'Name' must be at least 2 characters; field 'Age' must be at least 18".
Proof.
  refine (proj2 (proj2 (Validate_aggregates_every_violation noRegexp
    (VPtr (Some (VStruct
       [mkField "Name" "" "required,min=2" (VString false "");
        mkField "Age" "" "min=18" (VInt TInt 17)]))) eq_refl eq_refl)) _).
  vm_compute. discriminate.
Defined.

(** ** Skipped fields *)

Lemma Validate_VStruct rc fields :
  Validate rc (VStruct fields) =
  match validateFields rc fields [] with
  | [] => None
  | errors => Some ("validation failed: " ++ Join errors "; ")
  end.
Proof.
  unfold Validate. cbn [target kind fieldsOf].
  now destruct (validateFields rc fields []).
Qed.

Lemma Validate_pointer rc fields :
  Validate rc (VPtr (Some (VStruct fields))) = Validate rc (VStruct fields).
Proof. reflexivity. Qed.

Lemma validateFields_skip rc fs1 f fs2 :
  validated f = false ->
  validateFields rc (fs1 ++ f :: fs2) [] = validateFields rc (fs1 ++ fs2) [].
Proof.
  intros H. rewrite !validateFields_app, validateFields_cons, H. reflexivity.
Qed.

Lemma unexported_not_validated (f : StructField Value) :
  IsExported f = false -> validated f = false.
Proof. unfold validated. now intros ->. Qed.

Lemma untagged_not_validated (f : StructField Value) :
  Tag_validate f = "" -> validated f = false.
Proof. unfold validated. intros ->. apply andb_false_r. Qed.

(** C8: the result of [Validate] on a record is its result on the record
    restricted to the exported fields that carry a rule declaration; a
    field without a declaration, or an unexported one, can be removed
    without changing the result, and the declaration and the value of an
    unexported field can be replaced by any other: they are not looked
    at. *)
Theorem skipped_fields_contribute_nothing rc fields :
  Validate rc (VStruct fields) = Validate rc (VStruct (filter validated fields))
  /\ Validate rc (VPtr (Some (VStruct fields))) =
     Validate rc (VPtr (Some (VStruct (filter validated fields))))
  /\ (forall fs1 f fs2,
         fields = (fs1 ++ f :: fs2)%list ->
         IsExported f = false \/ Tag_validate f = "" ->
         Validate rc (VStruct fields) = Validate rc (VStruct (fs1 ++ fs2)))
  /\ (forall fs1 f fs2 tag v,
         fields = (fs1 ++ f :: fs2)%list ->
         IsExported f = false ->
         Validate rc (VStruct fields) =
         Validate rc (VStruct (fs1 ++ mkField (Name f) (PkgPath f) tag v :: fs2))).
Proof.
  split; [|split; [|split]].
  - rewrite !Validate_VStruct. now rewrite validateFields_filter.
  - rewrite !Validate_pointer, !Validate_VStruct.
    now rewrite validateFields_filter.
  - intros fs1 f fs2 -> H. rewrite !Validate_VStruct.
    rewrite validateFields_skip; [reflexivity|].
    destruct H; [now apply unexported_not_validated
                |now apply untagged_not_validated].
  - intros fs1 f fs2 tag v -> H. rewrite !Validate_VStruct.
    rewrite !validateFields_skip; [reflexivity| |];
      now apply unexported_not_validated.
Qed.

Lemma skipped_fields_contribute_nothing_witness :
  let public := mkField "Name" "" "required" (VString false "Ann") in
  let private := mkField "secret" "validation" "required,bogus" (VString false "") in
  let plain := mkField "Note" "" "" (VString false "") in
  Validate noRegexp (VStruct [public; private; plain]) =
  Validate noRegexp (VStruct [public; plain])
  /\ Validate noRegexp (VStruct [public; private; plain]) =
     Validate noRegexp
       (VStruct [public; mkField "secret" "validation" "email" VNil; plain])
  /\ Validate noRegexp (VStruct [public; private; plain]) = None.
Proof.
  intros public private plain.
  destruct (skipped_fields_contribute_nothing noRegexp [public; private; plain])
    as (_ & _ & R & Q).
  split; [exact (R [public] private [plain] eq_refl (or_introl eq_refl))|].
  split; [exact (Q [public] private [plain] "email" VNil eq_refl eq_refl)|].
  reflexivity.
Defined.

(** ** The parameter of a rule *)

Lemma Split_at_separator a b sep :
  contains sep a = false ->
  Split (a ++ String sep b) sep = a :: Split b sep.
Proof.
  induction a as [|c a IH]; cbn [contains append Split]; intros H.
  - now rewrite Ascii.eqb_refl.
  - apply orb_false_elim in H. destruct H as [Hc Ha].
    rewrite Hc, (IH Ha). reflexivity.
Qed.

Lemma Split_without_separator a sep :
  contains sep a = false -> Split a sep = [a].
Proof.
  induction a as [|c a IH]; cbn [contains Split]; intros H; [reflexivity|].
  apply orb_false_elim in H. destruct H as [Hc Ha].
  now rewrite Hc, (IH Ha).
Qed.

Lemma rule_parts n p rest :
  contains "=" n = false -> contains "=" p = false ->
  ruleNameOf (n ++ "=" ++ p ++ "=" ++ rest) = n
  /\ ruleValueOf (n ++ "=" ++ p ++ "=" ++ rest) = p.
Proof.
  intros Hn Hp. unfold ruleNameOf, ruleValueOf.
  change ("=" ++ p ++ "=" ++ rest) with (String "=" (p ++ String "=" rest)).
  rewrite (Split_at_separator n _ _ Hn), (Split_at_separator p _ _ Hp).
  split; reflexivity.
Qed.

(** C9: of a rule written [name=param=rest], only [param], the text
    between the first and the second [=], is the parameter; what follows
    the second [=] is dropped without any error.  So [pattern=^a=b$] is
    the pattern rule with the parameter [^a]. *)
Theorem parameter_ends_at_second_separator rc name v rule n p rest :
  contains "," rule = false ->
  TrimSpace rule = n ++ "=" ++ p ++ "=" ++ rest ->
  contains "=" n = false ->
  contains "=" p = false ->
  validateField rc name v rule = errorList (applyRule rc name v n p)
  /\ validateField rc name v "pattern=^a=b$" =
     errorList (validatePattern rc name v "^a").
Proof.
  intros Hc Ht Hn Hp. split; [|reflexivity].
  unfold validateField. rewrite (Split_without_separator _ _ Hc).
  rewrite validateRules_single, Ht.
  destruct (rule_parts n p rest Hn Hp) as [-> ->].
  destruct n; reflexivity.
Qed.

Lemma parameter_ends_at_second_separator_witness :
  validateField noRegexp "Size" (VString false "abcd") " max=3=100 " =
  errorList (applyRule noRegexp "Size" (VString false "abcd") "max" "3")
  /\ validateField noRegexp "Size" (VString false "abcd") " max=3=100 " =
     ["field 'Size' must be at most 3 characters"].
Proof.
  split; [|reflexivity].
  apply (parameter_ends_at_second_separator noRegexp "Size"
           (VString false "abcd") " max=3=100 " "max" "3" "100");
    reflexivity.
Defined.

(** ** The rules on text, and the values outside a rule's kinds *)

Lemma append_inv_head (a b c : string) : a ++ b = a ++ c -> b = c.
Proof.
  induction a as [|x a IH]; cbn [append]; intros H; [exact H|].
  injection H as H. exact (IH H).
Qed.





(** C10: [required] reports nothing on a value of any kind for which it
    has no case: every integer, signed or unsigned, whatever its value, a
    boolean, a floating-point or complex number, a struct, a channel, a
    function and an unsafe pointer.  [min] and [max] report nothing,
    whatever the parameter, on a value of any kind other than text,
    sequence and signed integer: the nil interface, a boolean, an unsigned
    integer, a floating-point or complex number, a map, a pointer, an
    interface, a struct, a channel, a function and an unsafe pointer.
    [email], [url] and [pattern] fail on every value that is not a
    [string], each with its type-mismatch message. *)
Theorem rules_outside_their_kinds rc name :
  (forall t n, validateRequired name (VInt t n) = None)
  /\ (forall b, validateRequired name (VBool b) = None)
  /\ (forall t bits, validateRequired name (VFloat t bits) = None)
  /\ (forall param v,
         match v with
         | VBool _ | VMap _ | VFloat _ _ | VStruct _ =>
           validateMin name v param = None /\ validateMax name v param = None
         | _ => True
         end)
  /\ (forall param v,
         match assertString v with
         | Some _ => True
         | None =>
           validateEmail name v =
           Some ("field '" ++ name ++ "' must be a string for email validation")
           /\ validateURL name v =
              Some ("field '" ++ name ++ "' must be a string for URL validation")
           /\ validatePattern rc name v param =
              Some ("field '" ++ name ++ "' must be a string for pattern validation")
         end)
  /\ (forall v, requiredHasCase (kind v) = false ->
                validateRequired name v = None)
  /\ (forall v,
         match v with
         | VBool _ | VInt _ _ | VUint _ _ | VFloat _ _ | VComplex _ _ _
         | VStruct _ | VChan _ | VFunc _ | VUnsafePointer _ =>
           requiredHasCase (kind v) = false
         | VNil | VString _ _ | VArray _ | VSlice _ | VMap _ | VPtr _
         | VInterface _ =>
           requiredHasCase (kind v) = true
         end)
  /\ (forall param v, minMaxHasCase (kind v) = false ->
         validateMin name v param = None /\ validateMax name v param = None)
  /\ (forall v,
         match v with
         | VNil | VBool _ | VUint _ _ | VFloat _ _ | VComplex _ _ _ | VMap _
         | VPtr _ | VInterface _ | VStruct _ | VChan _ | VFunc _
         | VUnsafePointer _ =>
           minMaxHasCase (kind v) = false
         | VString _ _ | VArray _ | VSlice _ | VInt _ _ =>
           minMaxHasCase (kind v) = true
         end).
Proof.
  split; [intros [] n; reflexivity|].
  split; [reflexivity|].
  split; [intros [] bits; reflexivity|].
  split; [|split; [|split; [|split; [|split]]]].
  - intros param [| | | | [] | | | | | | | | | | |]; try exact I;
      split; reflexivity.
  - intros param v. unfold validateEmail, validateURL, validatePattern.
    destruct (assertString v); [exact I|]. repeat split.
  - intros v. unfold validateRequired.
    destruct (kind v); cbn [requiredHasCase]; try discriminate; reflexivity.
  - intros [| | [] | [] | [] | [] | | | | | | | | | |]; reflexivity.
  - intros param v. unfold validateMin, validateMax.
    destruct (kind v); cbn [minMaxHasCase]; try discriminate; now split.
  - intros [| | [] | [] | [] | [] | | | | | | | | | |]; reflexivity.
Qed.

Lemma rules_outside_their_kinds_witness :
  validateRequired "Count" (VUint TUint 0) = None
  /\ validateRequired "Ratio" (VComplex TComplex128 0 0) = None
  /\ validateRequired "Inner" (VStruct []) = None
  /\ validateRequired "Events" (VChan true) = None
  /\ validateMin "Count" (VUint TUint8 1) "5" = None
  /\ validateMax "Count" (VUint TUint8 9) "5" = None
  /\ validateMin "Next" (VPtr None) "5" = None
  /\ validateMax "Anything" VNil "5" = None.
Proof.
  destruct (rules_outside_their_kinds noRegexp "Count")
    as (_ & _ & _ & _ & _ & R & _ & M & _).
  destruct (rules_outside_their_kinds noRegexp "Ratio")
    as (_ & _ & _ & _ & _ & R1 & _).
  destruct (rules_outside_their_kinds noRegexp "Inner")
    as (_ & _ & _ & _ & _ & R2 & _).
  destruct (rules_outside_their_kinds noRegexp "Events")
    as (_ & _ & _ & _ & _ & R3 & _).
  destruct (rules_outside_their_kinds noRegexp "Next")
    as (_ & _ & _ & _ & _ & _ & _ & M1 & _).
  destruct (rules_outside_their_kinds noRegexp "Anything")
    as (_ & _ & _ & _ & _ & _ & _ & M2 & _).
  split; [exact (R (VUint TUint 0) eq_refl)|].
  split; [exact (R1 (VComplex TComplex128 0 0) eq_refl)|].
  split; [exact (R2 (VStruct []) eq_refl)|].
  split; [exact (R3 (VChan true) eq_refl)|].
  split; [exact (proj1 (M "5" (VUint TUint8 1) eq_refl))|].
  split; [exact (proj2 (M "5" (VUint TUint8 9) eq_refl))|].
  split; [exact (proj1 (M1 "5" (VPtr None) eq_refl))|].
  exact (proj2 (M2 "5" VNil eq_refl)).
Defined.

(** ** The repository's tests, evaluated on the embedding *)

Example test_ValidateValidStruct :
  Validate testRegexp
    (TestUser "John Doe" "john@example.com" 25 "https://example.com" "john_doe123")
  = None
  /\ Validate testRegexp
       (VPtr (Some (TestUser "John Doe" "john@example.com" 25
                      "https://example.com" "john_doe123")))
     = None.
Proof. split; reflexivity. Qed.

Example test_MultipleErrors :
  Validate testRegexp
    (TestUser "" "invalid-email" 17 "invalid-url" "john-doe")
  = Some "validation failed: field 'Name' is required; field 'Name' must be at least 2 characters; field 'Email' must be a valid email address; field 'Age' must be at least 18; field 'Website' must be a valid URL; field 'Username' does not match required pattern".
Proof. reflexivity. Qed.

Example test_SliceValidation :
  Validate testRegexp (TestProduct "Test Product" "A great product" ["tag1"; "tag2"] 100)
  = None
  /\ Validate testRegexp (TestProduct "Test Product" "A great product" [] 100)
     = Some "validation failed: field 'Tags' must have at least 1 items"
  /\ Validate testRegexp
       (TestProduct "Test Product" "A great product" (repeat "tag" 11) 100)
     = Some "validation failed: field 'Tags' must have at most 10 items".
Proof. repeat split; reflexivity. Qed.

Example test_UnknownRule :
  Validate testRegexp (VStruct [mkField "Field" "" "unknown_rule" (VString false "test")])
  = Some "validation failed: unknown validation rule: unknown_rule".
Proof. reflexivity. Qed.

(** ** Numbers as text: printing and reading back *)

Lemma decimal_fold digits : decimal digits = fold_left decimalStep digits 0%Z.
Proof. reflexivity. Qed.

Lemma bytes_cons c s : bytes (String c s) = byte_of c :: bytes s.
Proof. reflexivity. Qed.

Lemma byte_of_digitChar d :
  (0 <= d < 10)%Z -> byte_of (digitChar d) = Z.to_N (48 + d).
Proof.
  intros H.
  assert (E : (d = 0 \/ d = 1 \/ d = 2 \/ d = 3 \/ d = 4 \/ d = 5 \/ d = 6
               \/ d = 7 \/ d = 8 \/ d = 9)%Z) by lia.
  repeat (destruct E as [-> | E]; [reflexivity|]). now subst.
Qed.

Lemma isDigit_digitChar d :
  (0 <= d < 10)%Z -> isDigit (byte_of (digitChar d)) = true.
Proof.
  intros H. rewrite (byte_of_digitChar d H). unfold isDigit.
  apply andb_true_intro. split; apply N.leb_le; lia.
Qed.

Lemma value_of_digitChar d :
  (0 <= d < 10)%Z -> (Z.of_N (byte_of (digitChar d)) - 48 = d)%Z.
Proof. intros H. rewrite (byte_of_digitChar d H). lia. Qed.

Lemma codepoints_cons_ascii c s :
  (byte_of c <? 128)%N = true ->
  codepoints (String c s) = byte_of c :: codepoints s.
Proof. intros H. unfold codepoints. now rewrite (runes_ascii c s H). Qed.

Lemma codepoints_ascii s :
  forallb (fun b => (b <? 128)%N) (bytes s) = true -> codepoints s = bytes s.
Proof.
  induction s as [|c s IH]; [reflexivity|].
  rewrite bytes_cons. cbn [forallb]. intros H.
  apply andb_prop in H. destruct H as [Hc Hs].
  now rewrite (codepoints_cons_ascii c s Hc), (IH Hs).
Qed.

Lemma isDigit_ascii b : isDigit b = true -> (b <? 128)%N = true.
Proof.
  unfold isDigit. intros H. apply andb_prop in H. destruct H as [_ H].
  apply N.leb_le in H. apply N.ltb_lt. lia.
Qed.

Lemma digits_ascii l :
  forallb isDigit l = true -> forallb (fun b => (b <? 128)%N) l = true.
Proof.
  induction l as [|b l IH]; [reflexivity|]. cbn [forallb]. intros H.
  apply andb_prop in H. destruct H as [Hb Hl].
  now rewrite (isDigit_ascii b Hb), (IH Hl).
Qed.

Lemma takeDigits_all l : forallb isDigit l = true -> takeDigits l = l.
Proof.
  induction l as [|b l IH]; [reflexivity|]. cbn [forallb takeDigits].
  intros H. apply andb_prop in H. destruct H as [Hb Hl].
  now rewrite Hb, (IH Hl).
Qed.

Lemma SkipSpace_not_space r l :
  IsSpace r = false -> SkipSpace (r :: l) = Some (r :: l).
Proof.
  intros H. cbn [SkipSpace]. rewrite H.
  assert (H13 : (r =? 13)%N = false).
  { destruct (r =? 13)%N eqn:E; [|reflexivity].
    apply N.eqb_eq in E. rewrite E in H. discriminate. }
  assert (H10 : (r =? 10)%N = false).
  { destruct (r =? 10)%N eqn:E; [|reflexivity].
    apply N.eqb_eq in E. rewrite E in H. discriminate. }
  now rewrite H13, H10.
Qed.

Lemma isDigit_not_space b : isDigit b = true -> IsSpace b = false.
Proof.
  unfold isDigit. intros H. apply andb_prop in H. destruct H as [Hlo Hhi].
  apply N.leb_le in Hlo. apply N.leb_le in Hhi. unfold IsSpace.
  repeat match goal with
         | |- context [(?a <=? ?b)%N] =>
           destruct (N.leb_spec a b); try lia
         | |- context [(?a =? ?b)%N] =>
           destruct (N.eqb_spec a b); try lia
         end; reflexivity.
Qed.

Lemma isDigit_not_sign b :
  isDigit b = true -> (b =? 43)%N = false /\ (b =? 45)%N = false.
Proof.
  unfold isDigit. intros H. apply andb_prop in H. destruct H as [Hlo _].
  apply N.leb_le in Hlo. split; apply N.eqb_neq; lia.
Qed.

Lemma formatBits_digits fuel :
  forall u acc,
    (0 <= u)%Z ->
    forallb isDigit (bytes acc) = true ->
    forallb isDigit (bytes (formatBits fuel 10 u acc)) = true.
Proof.
  induction fuel as [|fuel IH]; intros u acc Hu Hacc; [exact Hacc|].
  cbn [formatBits].
  assert (Hd : (0 <= u mod 10 < 10)%Z) by (apply Z.mod_pos_bound; lia).
  assert (Hacc' : forallb isDigit (bytes (String (digitChar (u mod 10)) acc))
                  = true).
  { rewrite bytes_cons. cbn [forallb].
    now rewrite (isDigit_digitChar _ Hd), Hacc. }
  destruct (u <? 10)%Z; [exact Hacc'|].
  apply IH; [apply Z.div_pos; lia | exact Hacc'].
Qed.

Lemma formatBits_not_empty fuel u acc :
  bytes (formatBits (S fuel) 10 u acc) <> [].
Proof.
  revert u acc. induction fuel as [|fuel IH]; intros u acc.
  - cbn [formatBits]. destruct (u <? 10)%Z; rewrite bytes_cons; discriminate.
  - change (formatBits (S (S fuel)) 10 u acc)
      with (let a' := String (digitChar (u mod 10)) acc in
            if (u <? 10)%Z then a' else formatBits (S fuel) 10 (u / 10) a').
    cbv zeta. destruct (u <? 10)%Z; [rewrite bytes_cons; discriminate|].
    apply IH.
Qed.

Lemma formatBits_parseUint fuel :
  forall u acc,
    (0 <= u < 10 ^ Z.of_nat fuel)%Z ->
    (u < 2 ^ 64)%Z ->
    parseUintLoop (bytes (formatBits fuel 10 u acc)) 0 =
    parseUintLoop (bytes acc) u.
Proof.
  induction fuel as [|fuel IH]; intros u acc Hu H64.
  - cbn [formatBits]. replace u with 0%Z by (cbn in Hu; lia). reflexivity.
  - cbn [formatBits].
    assert (Hd : (0 <= u mod 10 < 10)%Z) by (apply Z.mod_pos_bound; lia).
    assert (Hstep : forall n,
               (0 <= n)%Z -> (n * 10 + u mod 10 = u)%Z ->
               parseUintLoop (bytes (String (digitChar (u mod 10)) acc)) n =
               parseUintLoop (bytes acc) u).
    { intros n Hn Hnu. rewrite bytes_cons. cbn [parseUintLoop].
      rewrite (isDigit_digitChar _ Hd). cbn [negb].
      rewrite (value_of_digitChar _ Hd).
      change (maxUint64 / 10 + 1)%Z with 1844674407370955162%Z.
      change maxUint64 with 18446744073709551615%Z.
      change (2 ^ 64)%Z with 18446744073709551616%Z in *.
      destruct (Z.geb_spec n 1844674407370955162); [lia|].
      rewrite Hnu, Z.mod_small by lia.
      destruct (Z.ltb_spec u (n * 10)); [lia|].
      destruct (Z.gtb_spec u 18446744073709551615); [lia|].
      reflexivity. }
    destruct (Z.ltb_spec u 10) as [Hlt | Hge].
    + apply Hstep; [lia|]. rewrite Z.mod_small; lia.
    + rewrite IH.
      * apply Hstep; [apply Z.div_pos; lia|].
        pose proof (Z.div_mod u 10). lia.
      * rewrite Nat2Z.inj_succ, Z.pow_succ_r in Hu by lia.
        split; [apply Z.div_pos; lia|].
        apply Z.div_lt_upper_bound; lia.
      * assert (u / 10 <= u)%Z by (apply Z.div_le_upper_bound; lia). lia.
Qed.


Lemma pow10_64 : (2 ^ 64 < 10 ^ Z.of_nat 64)%Z.
Proof. reflexivity. Qed.

Lemma parseUintLoop_ok l :
  forall n m,
    (0 <= n)%Z ->
    parseUintLoop l n = inr m ->
    forallb isDigit l = true /\ m = fold_left decimalStep l n /\ (0 <= m)%Z.
Proof.
  induction l as [|c l IH]; intros n m Hn H.
  - cbn in H. injection H as <-. cbn. auto.
  - cbn [parseUintLoop] in H.
    destruct (isDigit c) eqn:Hc; cbn [negb] in H; [|discriminate].
    change (maxUint64 / 10 + 1)%Z with 1844674407370955162%Z in H.
    change maxUint64 with 18446744073709551615%Z in H.
    change (2 ^ 64)%Z with 18446744073709551616%Z in H.
    destruct (Z.geb_spec n 1844674407370955162); [discriminate|].
    assert (Hd : (0 <= Z.of_N c - 48 < 10)%Z).
    { unfold isDigit in Hc. apply andb_prop in Hc. destruct Hc as [Hlo Hhi].
      apply N.leb_le in Hlo. apply N.leb_le in Hhi. lia. }
    destruct (Z.lt_ge_cases (n * 10 + (Z.of_N c - 48)) 18446744073709551616)
      as [Hsmall | Hwrap].
    2: { replace ((n * 10 + (Z.of_N c - 48)) mod 18446744073709551616)%Z
           with (n * 10 + (Z.of_N c - 48) - 18446744073709551616)%Z in H
           by (apply Z.mod_unique with 1%Z; lia).
         destruct (Z.ltb_spec
                     (n * 10 + (Z.of_N c - 48) - 18446744073709551616)
                     (n * 10)); [discriminate|lia]. }
    rewrite Z.mod_small in H by lia.
    destruct (Z.ltb_spec (n * 10 + (Z.of_N c - 48)) (n * 10)); [lia|].
    destruct (Z.gtb_spec (n * 10 + (Z.of_N c - 48)) 18446744073709551615);
      [discriminate|].
    cbn [orb] in H. apply IH in H; [|lia]. destruct H as (Hl & Hm & Hpos).
    cbn [forallb fold_left]. rewrite Hc, Hl. repeat split; try assumption.
    rewrite Hm. unfold decimalStep at 3. f_equal. lia.
Qed.

Lemma ParseUint_ok l m :
  ParseUint l = inr m ->
  l <> [] /\ forallb isDigit l = true /\ m = decimal l /\ (0 <= m)%Z.
Proof.
  destruct l as [|c l]; [discriminate|]. unfold ParseUint. intros H.
  apply parseUintLoop_ok in H; [|lia]. destruct H as (Hl & Hm & Hpos).
  repeat split; try assumption. discriminate.
Qed.

Lemma scanInt_digits c rest :
  isDigit c = true -> forallb isDigit rest = true ->
  (decimal (c :: rest) <= 2 ^ 63 - 1)%Z ->
  scanInt (c :: rest) = Some (decimal (c :: rest)).
Proof.
  intros Hc Hrest Hmax. unfold scanInt.
  rewrite (SkipSpace_not_space c rest (isDigit_not_space c Hc)).
  destruct (isDigit_not_sign c Hc) as [-> ->].
  rewrite (takeDigits_all (c :: rest)) by (cbn [forallb]; now rewrite Hc).
  assert (0 <= decimal (c :: rest))%Z.
  { rewrite decimal_fold. clear Hmax.
    assert (G : forall l n, (0 <= n)%Z -> forallb isDigit l = true ->
                       (0 <= fold_left decimalStep l n)%Z).
    { induction l as [|b l IH]; intros n Hn Hl; [exact Hn|].
      cbn [forallb] in Hl. apply andb_prop in Hl. destruct Hl as [Hb Hl].
      cbn [fold_left]. apply IH; [|exact Hl].
      unfold decimalStep, isDigit in *. apply andb_prop in Hb.
      destruct Hb as [Hlo _]. apply N.leb_le in Hlo. lia. }
    apply G; [lia|]. cbn [forallb]. now rewrite Hc. }
  cbv [intBits]. change (2 ^ (64 - 1))%Z with 9223372036854775808%Z.
  change (2 ^ 63)%Z with 9223372036854775808%Z in Hmax.
  match goal with
  | |- (if ?cond then _ else _) = _ =>
    replace cond with true; [reflexivity|];
    symmetry; apply andb_true_intro; split; apply Z.leb_le; lia
  end.
Qed.

Lemma fold_decimal_nonneg l :
  forall n, (0 <= n)%Z -> forallb isDigit l = true ->
       (0 <= fold_left decimalStep l n)%Z.
Proof.
  induction l as [|b l IH]; intros n Hn Hl; [exact Hn|].
  cbn [forallb] in Hl. apply andb_prop in Hl. destruct Hl as [Hb Hl].
  cbn [fold_left]. apply IH; [|exact Hl].
  unfold decimalStep, isDigit in *. apply andb_prop in Hb.
  destruct Hb as [Hlo _]. apply N.leb_le in Hlo. lia.
Qed.

Lemma scanInt_signed (negative : bool) c rest :
  isDigit c = true -> forallb isDigit rest = true ->
  (decimal (c :: rest) <= (if negative then 2 ^ 63 else 2 ^ 63 - 1))%Z ->
  scanInt ((if negative then 45%N else 43%N) :: c :: rest) =
  Some (if negative then (- decimal (c :: rest))%Z else decimal (c :: rest)).
Proof.
  intros Hc Hrest Hmax.
  assert (Hall : forallb isDigit (c :: rest) = true)
    by (cbn [forallb]; now rewrite Hc).
  pose proof (fold_decimal_nonneg (c :: rest) 0 (Z.le_refl 0) Hall) as Hpos.
  rewrite <- decimal_fold in Hpos.
  change (2 ^ 63)%Z with 9223372036854775808%Z in Hmax.
  unfold scanInt.
  destruct negative.
  - rewrite (SkipSpace_not_space 45%N (c :: rest) eq_refl).
    cbn [N.eqb Pos.eqb]. rewrite (takeDigits_all (c :: rest) Hall).
    cbv [intBits]. change (2 ^ (64 - 1))%Z with 9223372036854775808%Z.
    match goal with
    | |- (if ?cond then _ else _) = _ =>
      replace cond with true; [reflexivity|];
      symmetry; apply andb_true_intro; split; apply Z.leb_le; lia
    end.
  - rewrite (SkipSpace_not_space 43%N (c :: rest) eq_refl).
    cbn [N.eqb Pos.eqb]. rewrite (takeDigits_all (c :: rest) Hall).
    cbv [intBits]. change (2 ^ (64 - 1))%Z with 9223372036854775808%Z.
    match goal with
    | |- (if ?cond then _ else _) = _ =>
      replace cond with true; [reflexivity|];
      symmetry; apply andb_true_intro; split; apply Z.leb_le; lia
    end.
Qed.

Lemma Sscanf_d_of_scanInt s r l :
  codepoints s = r :: l -> IsSpace r = false -> Sscanf_d s = scanInt (r :: l).
Proof.
  intros Hs Hr. unfold Sscanf_d. now rewrite Hs, (SkipSpace_not_space r l Hr).
Qed.


Lemma parseInt_scanned s n : s <> "" -> Sscanf_d s = Some n -> parseInt s = n.
Proof.
  intros Hs H. unfold parseInt. rewrite H.
  destruct (String.eqb_spec s ""); [contradiction|reflexivity].
Qed.

Lemma Atoi_cases s n :
  Atoi s = inr n ->
  exists c rest,
    bytes s = c :: rest /\
    ((c = 43%N /\ ParseUint rest = inr n /\ (n < 2 ^ 63)%Z)
     \/ (c = 45%N /\ exists un, ParseUint rest = inr un /\ n = (- un)%Z
                          /\ (un <= 2 ^ 63)%Z)
     \/ (c <> 43%N /\ c <> 45%N /\ ParseUint (c :: rest) = inr n
         /\ (n < 2 ^ 63)%Z)).
Proof.
  unfold Atoi. destruct (bytes s) as [|c rest]; [discriminate|].
  intros H. exists c, rest. split; [reflexivity|].
  change (2 ^ 63)%Z with 9223372036854775808%Z in *.
  destruct (N.eqb_spec c 43) as [E43 | E43].
  - left. destruct (ParseUint rest) as [[]|un]; try discriminate.
    cbn [negb andb] in H.
    destruct (Z.geb_spec un 9223372036854775808); [discriminate|].
    injection H as <-. auto.
  - destruct (N.eqb_spec c 45) as [E45 | E45].
    + right. left. destruct (ParseUint rest) as [[]|un]; try discriminate.
      cbn [negb andb] in H.
      destruct (Z.gtb_spec un 9223372036854775808); [discriminate|].
      injection H as <-. split; [assumption|]. exists un. auto.
    + right. right. destruct (ParseUint (c :: rest)) as [[]|un];
        try discriminate.
      cbn [negb andb] in H.
      destruct (Z.geb_spec un 9223372036854775808); [discriminate|].
      injection H as <-. auto.
Qed.

Lemma Sscanf_d_signed s (negative : bool) rest n :
  bytes s = (if negative then 45%N else 43%N) :: rest ->
  ParseUint rest = inr n ->
  (n <= (if negative then 2 ^ 63 else 2 ^ 63 - 1))%Z ->
  Sscanf_d s = Some (if negative then (- n)%Z else n).
Proof.
  intros Hb Hp Hmax. apply ParseUint_ok in Hp.
  destruct Hp as (Hne & Hall & -> & _).
  destruct rest as [|d rest]; [contradiction|].
  cbn [forallb] in Hall. apply andb_prop in Hall. destruct Hall as [Hd Hrest].
  assert (Hcp : codepoints s = (if negative then 45%N else 43%N) :: d :: rest).
  { rewrite codepoints_ascii; [exact Hb|]. rewrite Hb. cbn [forallb].
    rewrite (isDigit_ascii d Hd), (digits_ascii rest Hrest).
    now destruct negative. }
  rewrite (Sscanf_d_of_scanInt s _ _ Hcp) by now destruct negative.
  now apply scanInt_signed.
Qed.

Lemma Sscanf_d_unsigned s c rest n :
  bytes s = c :: rest ->
  ParseUint (c :: rest) = inr n ->
  (n < 2 ^ 63)%Z ->
  Sscanf_d s = Some n.
Proof.
  intros Hb Hp Hmax. apply ParseUint_ok in Hp.
  destruct Hp as (_ & Hall & -> & _).
  pose proof Hall as Hall'.
  cbn [forallb] in Hall. apply andb_prop in Hall. destruct Hall as [Hc Hrest].
  assert (Hcp : codepoints s = c :: rest).
  { rewrite codepoints_ascii; [exact Hb|]. rewrite Hb.
    now apply digits_ascii. }
  rewrite (Sscanf_d_of_scanInt s _ _ Hcp (isDigit_not_space c Hc)).
  apply scanInt_digits; try assumption. lia.
Qed.

Lemma Atoi_Sscanf_d s n : Atoi s = inr n -> Sscanf_d s = Some n.
Proof.
  intros H. destruct (Atoi_cases s n H) as (c & rest & Hb & Hcase).
  destruct Hcase as [(-> & Hp & Hmax)
                    | [(-> & un & Hp & -> & Hmax)
                      | (_ & _ & Hp & Hmax)]].
  - apply (Sscanf_d_signed s false rest n Hb Hp). lia.
  - exact (Sscanf_d_signed s true rest un Hb Hp Hmax).
  - exact (Sscanf_d_unsigned s c rest n Hb Hp Hmax).
Qed.

Lemma Atoi_not_empty s n : Atoi s = inr n -> s <> "".
Proof. intros H ->. discriminate H. Qed.

Lemma Atoi_Itoa n :
  (- 2 ^ 63 <= n < 2 ^ 63)%Z -> Atoi (Itoa n) = inr n.
Proof.
  intros Hn. change (2 ^ 63)%Z with 9223372036854775808%Z in Hn.
  pose proof pow10_64 as P. change (2 ^ 64)%Z with 18446744073709551616%Z in P.
  unfold Itoa, FormatInt. destruct (Z.ltb_spec n 0) as [Hneg | Hpos].
  - unfold Atoi. rewrite bytes_cons.
    change (byte_of "-") with 45%N. cbn [N.eqb Pos.eqb].
    pose proof (formatBits_not_empty 63 (- n) "") as Hne.
    pose proof (formatBits_parseUint 64 (- n) "") as Hp.
    destruct (bytes (formatBits 64 10 (- n) "")) as [|d ds]; [contradiction|].
    unfold ParseUint. rewrite Hp; [|lia|change (2 ^ 64)%Z with 18446744073709551616%Z; lia].
    cbn [bytes list_ascii_of_string map parseUintLoop negb andb].
    change (2 ^ 63)%Z with 9223372036854775808%Z.
    destruct (Z.gtb_spec (- n) 9223372036854775808); [lia|].
    f_equal. lia.
  - pose proof (formatBits_not_empty 63 n "") as Hne.
    pose proof (formatBits_parseUint 64 n "") as Hp.
    pose proof (formatBits_digits 64 n "" Hpos eq_refl) as Hd.
    unfold Atoi.
    destruct (bytes (formatBits 64 10 n "")) as [|d ds]; [contradiction|].
    cbn [forallb] in Hd. apply andb_prop in Hd. destruct Hd as [Hd _].
    destruct (isDigit_not_sign d Hd) as [-> ->].
    unfold ParseUint. rewrite Hp; [|lia|change (2 ^ 64)%Z with 18446744073709551616%Z; lia].
    cbn [bytes list_ascii_of_string map parseUintLoop negb andb].
    change (2 ^ 63)%Z with 9223372036854775808%Z.
    destruct (Z.geb_spec n 9223372036854775808); [lia|]. reflexivity.
Qed.

Lemma Itoa_injective n m :
  (- 2 ^ 63 <= n < 2 ^ 63)%Z -> (- 2 ^ 63 <= m < 2 ^ 63)%Z ->
  Itoa n = Itoa m -> n = m.
Proof.
  intros Hn Hm H. pose proof (Atoi_Itoa n Hn) as An.
  rewrite H, (Atoi_Itoa m Hm) in An. now injection An.
Qed.

(** ** The identifier generators *)

Lemma take_length n s : String.length (take n s) = Nat.min n (String.length s).
Proof.
  revert s. induction n as [|n IH]; intros [|c s]; cbn [take String.length];
    try reflexivity.
  now rewrite IH.
Qed.

Lemma take_all n s : String.length s <= n -> take n s = s.
Proof.
  revert s. induction n as [|n IH]; intros [|c s]; cbn [take String.length];
    intros H; try reflexivity; try lia.
  rewrite IH; [reflexivity|lia].
Qed.

Lemma append_length (a b : string) :
  String.length (a ++ b) = String.length a + String.length b.
Proof. induction a as [|c a IH]; cbn; [reflexivity|now rewrite IH]. Qed.

Lemma zeros_length n : String.length (Providers.zeros n) = n.
Proof. induction n as [|n IH]; cbn; [reflexivity|now rewrite IH]. Qed.

Lemma buffer_length n random :
  String.length (Providers.buffer n random) = n.
Proof.
  unfold Providers.buffer. rewrite take_length, append_length, zeros_length.
  lia.
Qed.

Lemma EncodeToString_length src :
  String.length (EncodeToString src) = 2 * String.length src.
Proof.
  induction src as [|c src IH]; [reflexivity|].
  cbn [EncodeToString String.length]. rewrite IH. lia.
Qed.

Lemma hex_digits_of_byte c :
  isLowerHex (byte_of (digitChar (Z.of_N (N.shiftr (byte_of c) 4)))) = true
  /\ isLowerHex (byte_of (digitChar (Z.of_N (N.land (byte_of c) 15)))) = true.
Proof. destruct c as [[] [] [] [] [] [] [] []]; split; reflexivity. Qed.

Lemma EncodeToString_hex src :
  forallb isLowerHex (bytes (EncodeToString src)) = true.
Proof.
  induction src as [|c src IH]; [reflexivity|].
  cbn [EncodeToString]. rewrite !bytes_cons. cbn [forallb].
  destruct (hex_digits_of_byte c) as [-> ->]. exact IH.
Qed.

Lemma increment_next c :
  (- 2 ^ 63 <= c)%Z -> (c + 1 < 2 ^ 63)%Z ->
  Providers.SimpleIDGenerator.increment c = (c + 1)%Z.
Proof.
  intros Hlo Hhi. unfold Providers.SimpleIDGenerator.increment.
  change (2 ^ 63)%Z with 9223372036854775808%Z in *.
  change (2 ^ 64)%Z with 18446744073709551616%Z.
  rewrite Z.mod_small; lia.
Qed.

Lemma GenerateN_from n :
  forall g,
    (0 <= Providers.SimpleIDGenerator.counter g)%Z ->
    (Providers.SimpleIDGenerator.counter g + Z.of_nat n < 2 ^ 63)%Z ->
    Providers.SimpleIDGenerator.GenerateN n g =
    (map (fun i =>
            Providers.SimpleIDGenerator.prefix g ++ "-" ++
            Itoa (Providers.SimpleIDGenerator.counter g + Z.of_nat i))
         (seq 1 n),
     {| Providers.SimpleIDGenerator.counter :=
          Providers.SimpleIDGenerator.counter g + Z.of_nat n;
        Providers.SimpleIDGenerator.prefix :=
          Providers.SimpleIDGenerator.prefix g |}).
Proof.
  induction n as [|n IH]; intros [c p] Hc Hn;
    cbn [Providers.SimpleIDGenerator.counter
           Providers.SimpleIDGenerator.prefix] in *.
  - cbn. now rewrite Z.add_0_r.
  - cbn [Providers.SimpleIDGenerator.GenerateN].
    unfold Providers.SimpleIDGenerator.Generate.
    cbn [Providers.SimpleIDGenerator.counter
           Providers.SimpleIDGenerator.prefix].
    change (2 ^ 63)%Z with 9223372036854775808%Z in *.
    rewrite increment_next
      by (change (2 ^ 63)%Z with 9223372036854775808%Z; lia).
    rewrite IH;
      cbn [Providers.SimpleIDGenerator.counter
             Providers.SimpleIDGenerator.prefix];
      [|lia|change (2 ^ 63)%Z with 9223372036854775808%Z; lia].
    f_equal.
    + cbn [seq map]. f_equal.
      rewrite <- (seq_shift n 1), map_map. apply map_ext. intros i.
      do 3 f_equal. lia.
    + f_equal. lia.
Qed.

(** X9: the identifiers of the first [n] calls of a fresh
    [SimpleIDGenerator], while the counter stays below 2^63, are
    [prefix-1], ..., [prefix-n] in this order, and no two of them are
    equal. *)
Theorem SimpleIDGenerator_sequence prefix n :
  (Z.of_nat n < 2 ^ 63)%Z ->
  let run := Providers.SimpleIDGenerator.GenerateN n
               (Providers.SimpleIDGenerator.New prefix) in
  fst run = map (fun i => prefix ++ "-" ++ Itoa (Z.of_nat i)) (seq 1 n)
  /\ Providers.SimpleIDGenerator.counter (snd run) = Z.of_nat n
  /\ NoDup (fst run).
Proof.
  intros Hn run. subst run.
  rewrite (GenerateN_from n (Providers.SimpleIDGenerator.New prefix))
    by (cbn; lia).
  cbn [fst snd Providers.SimpleIDGenerator.New
           Providers.SimpleIDGenerator.counter
           Providers.SimpleIDGenerator.prefix].
  split; [reflexivity|]. split; [reflexivity|].
  apply NoDup_map_NoDup_ForallPairs; [|apply seq_NoDup].
  intros x y Hx Hy H. apply in_seq in Hx. apply in_seq in Hy.
  apply append_inv_head in H. apply (append_inv_head "-") in H.
  change (2 ^ 63)%Z with 9223372036854775808%Z in Hn.
  apply Itoa_injective in H;
    [lia| |]; change (2 ^ 63)%Z with 9223372036854775808%Z; lia.
Qed.

Lemma SimpleIDGenerator_sequence_witness :
  fst (Providers.SimpleIDGenerator.GenerateN 3
         (Providers.SimpleIDGenerator.New "simple"))
  = ["simple-1"; "simple-2"; "simple-3"].
Proof.
  refine (eq_trans
            (proj1 (SimpleIDGenerator_sequence "simple" 3 eq_refl)) _).
  reflexivity.
Defined.

(** X10: a [HexIDGenerator] made by [NewHexIDGenerator] has a positive
    length, 16 when the requested one is not positive.  When the random
    source succeeds and the length is even, [Generate] returns the hex
    encoding of the random bytes: exactly [length] characters, each one
    of [0-9a-f].  When the length is odd the encoding is one character
    short of it and [Generate] panics on the slice. *)
Theorem HexIDGenerator_Generate requested random now :
  let g := Providers.HexIDGenerator.New requested in
  let len := Providers.HexIDGenerator.length g in
  (0 < len)%Z
  /\ len = (if (requested <=? 0)%Z then 16 else requested)%Z
  /\ (Z.even len = true ->
      exists id,
        Providers.HexIDGenerator.Generate g (Some random) now = Some id
        /\ id = EncodeToString
                  (Providers.buffer (Z.to_nat (len / 2)) random)
        /\ Z.of_nat (String.length id) = len
        /\ forallb isLowerHex (bytes id) = true)
  /\ (Z.odd len = true ->
      Providers.HexIDGenerator.Generate g (Some random) now = None).
Proof.
  intros g len. subst g len. unfold Providers.HexIDGenerator.New.
  cbn [Providers.HexIDGenerator.length].
  set (len := (if (requested <=? 0)%Z then 16 else requested)%Z).
  assert (Hpos : (0 < len)%Z).
  { subst len. destruct (Z.leb_spec requested 0); lia. }
  split; [exact Hpos|]. split; [reflexivity|].
  assert (Hgen : Providers.HexIDGenerator.Generate
                   {| Providers.HexIDGenerator.length := len |}
                   (Some random) now
                 = Providers.sliceTo
                     (EncodeToString
                        (Providers.buffer (Z.to_nat (len / 2)) random)) len).
  { unfold Providers.HexIDGenerator.Generate.
    cbn [Providers.HexIDGenerator.length].
    rewrite Z.quot_div_nonneg by lia.
    destruct (Z.ltb_spec (len / 2) 0) as [Hneg|]; [|reflexivity].
    pose proof (Z.div_pos len 2). lia. }
  assert (Hlen : Z.of_nat (String.length
                   (EncodeToString
                      (Providers.buffer (Z.to_nat (len / 2)) random)))
                 = (2 * (len / 2))%Z).
  { rewrite EncodeToString_length, buffer_length.
    pose proof (Z.div_pos len 2). lia. }
  pose proof (Z.div_mod len 2) as Hdm. pose proof (Zmod_even len) as Hev.
  split.
  - intros Heven. rewrite Heven in Hev.
    eexists. split; [|split; [reflexivity|split]].
    + rewrite Hgen. unfold Providers.sliceTo. rewrite Hlen.
      replace ((0 <=? len) && (len <=? 2 * (len / 2)))%Z with true
        by (symmetry; apply andb_true_intro; split; apply Z.leb_le; lia).
      rewrite take_all; [reflexivity|]. lia.
    + rewrite Hlen. lia.
    + apply EncodeToString_hex.
  - intros Hodd. rewrite <- Z.negb_even in Hodd.
    destruct (Z.even len); [discriminate|].
    rewrite Hgen. unfold Providers.sliceTo. rewrite Hlen.
    destruct (Z.leb_spec len (2 * (len / 2))); [lia|].
    now rewrite andb_false_r.
Qed.

Lemma HexIDGenerator_Generate_witness :
  Providers.HexIDGenerator.Generate (Providers.HexIDGenerator.New 15)
    (Some "0123456789abcdef") 0 = None
  /\ exists id,
      Providers.HexIDGenerator.Generate (Providers.HexIDGenerator.New 0)
        (Some "0123456789abcdef") 0 = Some id
      /\ Z.of_nat (String.length id) = 16%Z.
Proof.
  split.
  - exact (proj2 (proj2 (proj2
             (HexIDGenerator_Generate 15 "0123456789abcdef" 0))) eq_refl).
  - destruct (proj1 (proj2 (proj2
                (HexIDGenerator_Generate 0 "0123456789abcdef" 0))) eq_refl)
      as (id & Hid & _ & Hlen & _).
    exists id. split; [exact Hid|exact Hlen].
Defined.

Lemma drop_length n s : String.length (drop n s) = String.length s - n.
Proof.
  revert s. induction n as [|n IH]; intros [|c s]; cbn [drop String.length];
    try reflexivity; try lia.
  apply IH.
Qed.

Lemma slice_length b i j :
  j <= String.length b -> String.length (Providers.slice b i j) = j - i.
Proof.
  intros H. unfold Providers.slice. rewrite take_length, drop_length. lia.
Qed.

Lemma take_drop n s : s = take n s ++ drop n s.
Proof.
  revert s. induction n as [|n IH]; intros [|c s]; cbn [take drop append];
    try reflexivity.
  now rewrite <- IH.
Qed.

Lemma drop_drop n m s : drop n (drop m s) = drop (m + n) s.
Proof.
  revert s. induction m as [|m IH]; intros s; [reflexivity|].
  destruct s as [|c s]; cbn [drop Nat.add]; [now destruct n|apply IH].
Qed.


Lemma codepoints_app_ascii (a b : string) :
  forallb (fun x => (x <? 128)%N) (bytes a) = true ->
  codepoints (a ++ b) = (bytes a ++ codepoints b)%list.
Proof.
  induction a as [|c a IH]; [reflexivity|].
  rewrite bytes_cons. cbn [forallb append]. intros H.
  apply andb_prop in H. destruct H as [Hc Ha].
  now rewrite (codepoints_cons_ascii c _ Hc), (IH Ha).
Qed.

Lemma isLowerHex_ascii b : isLowerHex b = true -> (b <? 128)%N = true.
Proof.
  unfold isLowerHex, isDigit. intros H. apply N.ltb_lt.
  apply orb_prop in H. destruct H as [H | H]; apply andb_prop in H;
    destruct H as [_ H]; apply N.leb_le in H; lia.
Qed.

Lemma lowerHex_ascii l :
  forallb isLowerHex l = true -> forallb (fun x => (x <? 128)%N) l = true.
Proof.
  induction l as [|b l IH]; [reflexivity|]. cbn [forallb]. intros H.
  apply andb_prop in H. destruct H as [Hb Hl].
  now rewrite (isLowerHex_ascii b Hb), (IH Hl).
Qed.

Lemma matches_class_step k r x w :
  inClass k x = true -> matches (Cat (Class k) r) (x :: w) = matches r w.
Proof.
  intros H. cbn [matches deriv nullable]. rewrite H. now destruct r.
Qed.

Lemma inClass_lowerHex b :
  inClass (mkClass false [rng "0" "9"; rng "a" "f"]%char) b = isLowerHex b.
Proof.
  unfold inClass, isLowerHex, isDigit. cbn [negated ranges existsb xorb].
  now rewrite orb_false_r.
Qed.

Lemma matches_hex_run src rest w :
  matches (times (2 * String.length src) lowerHex rest)
          (bytes (EncodeToString src) ++ w)
  = matches rest w.
Proof.
  induction src as [|c src IH]; [reflexivity|].
  cbn [EncodeToString String.length]. rewrite !bytes_cons.
  replace (2 * S (String.length src)) with (S (S (2 * String.length src)))
    by lia.
  cbn [times app]. unfold lowerHex at 1 2, set.
  destruct (hex_digits_of_byte c) as [Hhi Hlo].
  rewrite !matches_class_step by (now rewrite inClass_lowerHex).
  exact IH.
Qed.

Lemma matches_dash r w : matches (Cat (chr "-") r) (45%N :: w) = matches r w.
Proof. unfold chr, set. now apply matches_class_step. Qed.

Lemma unhex_digits c :
  (16 * unhex (digitChar (Z.of_N (N.shiftr (byte_of c) 4)))
   + unhex (digitChar (Z.of_N (N.land (byte_of c) 15))))%N = byte_of c.
Proof. destruct c as [[] [] [] [] [] [] [] []]; reflexivity. Qed.

Lemma byte_of_injective c c' : byte_of c = byte_of c' -> c = c'.
Proof.
  intros H. rewrite <- (ascii_N_embedding c), <- (ascii_N_embedding c').
  unfold byte_of in H. now rewrite H.
Qed.

Lemma EncodeToString_cons c src :
  EncodeToString (String c src) =
  String (digitChar (Z.of_N (N.shiftr (byte_of c) 4)))
    (String (digitChar (Z.of_N (N.land (byte_of c) 15)))
       (EncodeToString src)).
Proof. reflexivity. Qed.

Lemma EncodeToString_injective src src' :
  EncodeToString src = EncodeToString src' -> src = src'.
Proof.
  revert src'. induction src as [|c src IH]; intros [|c' src'] H;
    try reflexivity; try discriminate.
  rewrite !EncodeToString_cons in H. injection H as Hhi Hlo Hrest.
  change (digitChar (Z.of_N (N.shiftr (byte_of c) 4)) =
          digitChar (Z.of_N (N.shiftr (byte_of c') 4))) in Hhi.
  f_equal; [|exact (IH _ Hrest)].
  apply byte_of_injective.
  rewrite <- (unhex_digits c), <- (unhex_digits c'). now rewrite Hhi, Hlo.
Qed.

Lemma append_inv_length (a a' b b' : string) :
  String.length a = String.length a' ->
  a ++ b = a' ++ b' -> a = a' /\ b = b'.
Proof.
  revert a'. induction a as [|c a IH]; intros [|c' a'] Hlen H;
    try discriminate Hlen; [now split|].
  cbn [append] in H. injection H as -> H. injection Hlen as Hlen.
  destruct (IH a' Hlen H) as [-> ->]. now split.
Qed.

Lemma matches_hex_segment n src rest w :
  String.length src = n ->
  matches (times (2 * n) lowerHex rest) (bytes (EncodeToString src) ++ w)
  = matches rest w.
Proof. intros <-. apply matches_hex_run. Qed.

Lemma codepoints_hex_app src (tail : string) :
  codepoints (EncodeToString src ++ tail)
  = (bytes (EncodeToString src) ++ codepoints tail)%list.
Proof.
  apply codepoints_app_ascii, lowerHex_ascii, EncodeToString_hex.
Qed.

Lemma dash_app (tail : string) : "-" ++ tail = String "-" tail.
Proof. reflexivity. Qed.

Lemma codepoints_dash (tail : string) :
  codepoints (String "-" tail) = 45%N :: codepoints tail.
Proof. now apply codepoints_cons_ascii. Qed.

Lemma buffer_slices b :
  String.length b = 16 ->
  b = Providers.slice b 0 4 ++ Providers.slice b 4 6 ++ Providers.slice b 6 8
      ++ Providers.slice b 8 10 ++ Providers.slice b 10 16.
Proof.
  intros H. unfold Providers.slice. cbn [Nat.sub].
  change (drop 0 b) with b.
  rewrite (take_all 6 (drop 10 b)) by (rewrite drop_length; lia).
  change (drop 10 b) with (drop (8 + 2) b). rewrite <- (drop_drop 2 8 b).
  rewrite <- (take_drop 2 (drop 8 b)).
  change (drop 8 b) with (drop (6 + 2) b). rewrite <- (drop_drop 2 6 b).
  rewrite <- (take_drop 2 (drop 6 b)).
  change (drop 6 b) with (drop (4 + 2) b). rewrite <- (drop_drop 2 4 b).
  rewrite <- (take_drop 2 (drop 4 b)).
  apply take_drop.
Qed.

(** X12: when the random source succeeds, the identifier of a
    [UUIDGenerator] has 36 characters and matches the format
    8-4-4-4-12 of lower-case hex digits that the repository's test
    checks, whatever the random bytes are. *)
Theorem UUIDGenerator_format random now :
  let id := Providers.UUIDGenerator.Generate (Some random) now in
  MatchString uuidRegex id = true /\ String.length id = 36.
Proof.
  cbv zeta. unfold Providers.UUIDGenerator.Generate.
  pose proof (buffer_length 16 random) as Hb.
  set (b := Providers.buffer 16 random) in *.
  assert (H1 : String.length (Providers.slice b 0 4) = 4)
    by (rewrite slice_length; lia).
  assert (H2 : String.length (Providers.slice b 4 6) = 2)
    by (rewrite slice_length; lia).
  assert (H3 : String.length (Providers.slice b 6 8) = 2)
    by (rewrite slice_length; lia).
  assert (H4 : String.length (Providers.slice b 8 10) = 2)
    by (rewrite slice_length; lia).
  assert (H5 : String.length (Providers.slice b 10 16) = 6)
    by (rewrite slice_length; lia).
  split.
  - unfold MatchString, uuidRegex.
    rewrite !dash_app.
    repeat rewrite ?codepoints_hex_app, ?codepoints_dash.
    rewrite (codepoints_ascii (EncodeToString (Providers.slice b 10 16)))
      by apply lowerHex_ascii, EncodeToString_hex.
    refine (eq_trans (matches_hex_segment 4 _ _ _ H1) _).
    rewrite matches_dash.
    refine (eq_trans (matches_hex_segment 2 _ _ _ H2) _).
    rewrite matches_dash.
    refine (eq_trans (matches_hex_segment 2 _ _ _ H3) _).
    rewrite matches_dash.
    refine (eq_trans (matches_hex_segment 2 _ _ _ H4) _).
    rewrite matches_dash.
    rewrite <- (app_nil_r (bytes (EncodeToString (Providers.slice b 10 16)))).
    refine (eq_trans (matches_hex_segment 6 _ _ _ H5) _).
    reflexivity.
  - rewrite !append_length, !EncodeToString_length, H1, H2, H3, H4, H5.
    reflexivity.
Qed.

Lemma UUID_segment_inv (s s' : string) (tail tail' : string) :
  String.length s = String.length s' ->
  EncodeToString s ++ String "-" tail = EncodeToString s' ++ String "-" tail' ->
  s = s' /\ tail = tail'.
Proof.
  intros Hlen H.
  apply append_inv_length in H;
    [|rewrite !EncodeToString_length; now rewrite Hlen].
  destruct H as [Hs Ht]. injection Ht as ->.
  split; [now apply EncodeToString_injective|reflexivity].
Qed.

(** X13: the identifier of a [UUIDGenerator] determines the 16 random
    bytes it was made from: two runs that return the same identifier read
    the same bytes; the same holds for a [PrefixedIDGenerator], whose
    identifier is its prefix, a dash and the identifier of its base. *)
Theorem UUIDGenerator_injective random random' now now' :
  (Providers.UUIDGenerator.Generate (Some random) now =
   Providers.UUIDGenerator.Generate (Some random') now' ->
   Providers.buffer 16 random = Providers.buffer 16 random')
  /\ (forall g,
         Providers.PrefixedIDGenerator.Generate g (Some random) now =
         Providers.PrefixedIDGenerator.Generate g (Some random') now' ->
         Providers.buffer 16 random = Providers.buffer 16 random')
  /\ (forall g,
         Providers.PrefixedIDGenerator.Generate g (Some random) now =
         Providers.PrefixedIDGenerator.prefix g ++ "-" ++
         Providers.UUIDGenerator.Generate (Some random) now).
Proof.
  assert (G : Providers.UUIDGenerator.Generate (Some random) now =
              Providers.UUIDGenerator.Generate (Some random') now' ->
              Providers.buffer 16 random = Providers.buffer 16 random').
  { unfold Providers.UUIDGenerator.Generate.
    pose proof (buffer_length 16 random) as Hb.
    pose proof (buffer_length 16 random') as Hb'.
    set (b := Providers.buffer 16 random) in *.
    set (b' := Providers.buffer 16 random') in *.
    rewrite !dash_app. intros H.
    apply UUID_segment_inv in H; [|rewrite !slice_length; lia].
    destruct H as [E1 H].
    apply UUID_segment_inv in H; [|rewrite !slice_length; lia].
    destruct H as [E2 H].
    apply UUID_segment_inv in H; [|rewrite !slice_length; lia].
    destruct H as [E3 H].
    apply UUID_segment_inv in H; [|rewrite !slice_length; lia].
    destruct H as [E4 H].
    apply EncodeToString_injective in H.
    rewrite (buffer_slices b Hb), (buffer_slices b' Hb').
    now rewrite E1, E2, E3, E4, H. }
  split; [exact G|]. split; [|reflexivity].
  intros g H. unfold Providers.PrefixedIDGenerator.Generate in H.
  apply append_inv_head in H. apply (append_inv_head "-") in H.
  exact (G H).
Qed.

Lemma UUIDGenerator_injective_witness :
  Providers.buffer 16 "0123456789abcdef" =
  Providers.buffer 16 "0123456789abcdefXYZ".
Proof.
  exact (proj1 (UUIDGenerator_injective "0123456789abcdef"
                  "0123456789abcdefXYZ" 0 1) eq_refl).
Defined.

(** ** The configuration store *)

Lemma find_Set_eq c key value :
  StringMap.find key (Config.Set_ c key value) = Some value.
Proof. unfold Config.Set_. now apply StringMapFacts.add_eq_o. Qed.

Lemma find_Set_neq c key value key' :
  key' <> key ->
  StringMap.find key' (Config.Set_ c key value) = StringMap.find key' c.
Proof.
  intros H. unfold Config.Set_. apply StringMapFacts.add_neq_o. congruence.
Qed.

(** X14: [Set] then [Get] of the same key gives the value back and the
    key exists; every other key is as it was; a new store holds no key,
    and [Get] answers the empty string for a key that does not exist. *)
Theorem Config_Set_Get c key value :
  Config.Get (Config.Set_ c key value) key = value
  /\ Config.Exists (Config.Set_ c key value) key = true
  /\ (forall key',
         key' <> key ->
         Config.Get (Config.Set_ c key value) key' = Config.Get c key'
         /\ Config.Exists (Config.Set_ c key value) key' = Config.Exists c key')
  /\ (forall key', Config.Exists Config.NewConfig key' = false)
  /\ (forall key', Config.Exists c key' = false -> Config.Get c key' = "").
Proof.
  unfold Config.Get, Config.Exists. rewrite find_Set_eq.
  split; [reflexivity|]. split; [reflexivity|]. split; [|split].
  - intros key' H. now rewrite (find_Set_neq c key value key' H).
  - intros key'. unfold Config.NewConfig.
    now rewrite StringMapFacts.empty_o.
  - intros key'. now destruct (StringMap.find key' c).
Qed.

Lemma Config_Set_Get_witness :
  Config.Get (Config.Set_ (Config.Set_ Config.NewConfig "a" "1") "b" "2") "a"
  = "1".
Proof.
  refine (eq_trans
            (proj1 (proj1 (proj2 (proj2
               (Config_Set_Get (Config.Set_ Config.NewConfig "a" "1") "b" "2")))
               "a" _)) _).
  - discriminate.
  - reflexivity.
Defined.

(** X15: [GetWithDefault] returns the stored value when the key exists
    with a value that is not empty, and the default otherwise; so with a
    default that is not empty it never returns the empty string. *)
Theorem Config_GetWithDefault c key defaultValue :
  Config.GetWithDefault c key defaultValue =
  (if Config.Exists c key && negb (String.eqb (Config.Get c key) "")
   then Config.Get c key else defaultValue)
  /\ (defaultValue <> "" -> Config.GetWithDefault c key defaultValue <> "")
  /\ (forall value,
         Config.GetWithDefault (Config.Set_ c key value) key defaultValue =
         if String.eqb value "" then defaultValue else value).
Proof.
  unfold Config.GetWithDefault, Config.Exists, Config.Get.
  split; [|split].
  - destruct (StringMap.find key c) as [v|]; [|reflexivity].
    cbn [andb]. now destruct (String.eqb v "").
  - intros Hd. destruct (StringMap.find key c) as [v|]; [|exact Hd].
    destruct (String.eqb_spec v ""); cbn [negb]; assumption.
  - intros value. rewrite find_Set_eq. now destruct (String.eqb value "").
Qed.

Lemma Config_GetWithDefault_witness :
  Config.GetWithDefault (Config.Set_ Config.NewConfig "empty" "") "empty"
    "default" <> "".
Proof.
  apply (proj1 (proj2 (Config_GetWithDefault
                         (Config.Set_ Config.NewConfig "empty" "") "empty"
                         "default"))).
  discriminate.
Defined.

Lemma collectMissing_acc c requiredKeys :
  forall missing,
    Config.collectMissing c requiredKeys missing =
    (missing ++ filter (fun key => negb (Config.Exists c key)
                               || String.eqb (Config.Get c key) "")
                  requiredKeys)%list.
Proof.
  induction requiredKeys as [|key rest IH]; intros missing.
  - cbn. now rewrite app_nil_r.
  - cbn [Config.collectMissing filter].
    destruct (negb (Config.Exists c key) || String.eqb (Config.Get c key) "").
    + rewrite IH, <- app_assoc. reflexivity.
    + apply IH.
Qed.

Lemma GetRequired_Some c key :
  (negb (Config.Exists c key) || String.eqb (Config.Get c key) "") = false
  <-> exists value, Config.GetRequired c key = Some value.
Proof.
  unfold Config.Exists, Config.Get, Config.GetRequired.
  destruct (StringMap.find key c) as [v|]; cbn [negb orb].
  - destruct (String.eqb v ""); split; intros H.
    + discriminate H.
    + destruct H as [x H]. discriminate H.
    + now exists v.
    + reflexivity.
  - split; [discriminate|]. intros [v H]. discriminate H.
Qed.

(** X16: [Validate] of the store reports the required keys that do not
    exist or hold the empty string, in the order in which they are
    required, joined with [, ]; it returns no error exactly when
    [GetRequired] would not panic on any of the required keys. *)
Theorem Config_Validate c requiredKeys :
  Config.Validate c requiredKeys =
  match filter (fun key => negb (Config.Exists c key)
                        || String.eqb (Config.Get c key) "") requiredKeys with
  | [] => None
  | missing =>
    Some ("missing required configuration keys: " ++ Join missing ", ")
  end
  /\ (Config.Validate c requiredKeys = None <->
      forall key, In key requiredKeys ->
             exists value, Config.GetRequired c key = Some value).
Proof.
  assert (E : Config.Validate c requiredKeys =
              match filter (fun key => negb (Config.Exists c key)
                                    || String.eqb (Config.Get c key) "")
                      requiredKeys with
              | [] => None
              | missing =>
                Some ("missing required configuration keys: "
                        ++ Join missing ", ")
              end).
  { unfold Config.Validate. rewrite collectMissing_acc. cbn [app].
    now destruct (filter _ requiredKeys). }
  split; [exact E|]. rewrite E. split.
  - intros H key Hin. apply GetRequired_Some.
    destruct (negb (Config.Exists c key) || String.eqb (Config.Get c key) "")
             eqn:Hk; [|reflexivity].
    assert (Hf : In key (filter (fun key => negb (Config.Exists c key)
                                       || String.eqb (Config.Get c key) "")
                           requiredKeys))
      by (apply filter_In; now split).
    destruct (filter _ requiredKeys); [contradiction|discriminate H].
  - intros H.
    destruct (filter _ requiredKeys) as [|key rest] eqn:Hf; [reflexivity|].
    assert (Hin : In key (filter (fun key => negb (Config.Exists c key)
                                        || String.eqb (Config.Get c key) "")
                            requiredKeys))
      by (rewrite Hf; now left).
    apply filter_In in Hin. destruct Hin as [Hin Hk].
    apply H, GetRequired_Some in Hin. congruence.
Qed.

Lemma Config_Validate_witness :
  Config.Validate (Config.Set_ Config.NewConfig "key1" "value1") ["key1"]
  = None.
Proof.
  apply (proj2 (proj2 (Config_Validate
                         (Config.Set_ Config.NewConfig "key1" "value1")
                         ["key1"]))).
  intros key [<- | []]. exists "value1". reflexivity.
Defined.

Lemma SplitN2_separator k v :
  contains "=" k = false ->
  Config.SplitN2 (k ++ String "=" v) "=" = [k; v].
Proof.
  induction k as [|c k IH]; cbn [contains append Config.SplitN2]; intros H.
  - reflexivity.
  - apply orb_false_elim in H. destruct H as [Hc Hk].
    rewrite Hc, (IH Hk). reflexivity.
Qed.

Lemma SplitN2_no_separator env :
  contains "=" env = false -> Config.SplitN2 env "=" = [env].
Proof.
  induction env as [|c env IH]; cbn [contains Config.SplitN2]; intros H;
    [reflexivity|].
  apply orb_false_elim in H. destruct H as [Hc Henv].
  now rewrite Hc, (IH Henv).
Qed.

Lemma SplitN2_with_separator env :
  contains "=" env = true ->
  exists k v, Config.SplitN2 env "=" = [k; v] /\ env = k ++ String "=" v
         /\ contains "=" k = false.
Proof.
  induction env as [|c env IH]; cbn [contains Config.SplitN2]; intros H;
    [discriminate|].
  destruct (Ascii.eqb_spec c "=") as [-> | Hc].
  - exists "", env. repeat split.
  - cbn [orb] in H. destruct (IH H) as (k & v & -> & -> & Hk).
    exists (String c k), v. repeat split. cbn [contains].
    destruct (Ascii.eqb_spec c "="); [contradiction|exact Hk].
Qed.

Lemma loadEntries_fold environ :
  forall c,
    fold_left
      (fun c env =>
         let pair := Config.SplitN2 env "=" in
         if (List.length pair =? 2)%nat
         then Config.Set_ c (nth 0 pair "") (nth 1 pair "")
         else c)
      environ c
    = fold_left loadEntry environ c.
Proof.
  induction environ as [|env rest IH]; intros c; [reflexivity|].
  cbn [fold_left]. rewrite <- IH. f_equal.
  unfold loadEntry, envKey. destruct (contains "=" env) eqn:E.
  - destruct (SplitN2_with_separator env E) as (k & v & -> & _). reflexivity.
  - now rewrite (SplitN2_no_separator env E).
Qed.

Lemma LoadFromEnv_fold c envs :
  Config.LoadFromEnv c envs = fold_left loadEntry (Syscall.Environ envs) c.
Proof. unfold Config.LoadFromEnv. apply loadEntries_fold. Qed.

Lemma loadEntries_untouched environ key :
  forall c,
    (forall env, In env environ -> envKey env <> Some key) ->
    StringMap.find key (fold_left loadEntry environ c) = StringMap.find key c.
Proof.
  induction environ as [|env rest IH]; intros c H; [reflexivity|].
  cbn [fold_left].
  rewrite IH by (intros e He; apply H; now right).
  unfold loadEntry. specialize (H env (or_introl eq_refl)).
  destruct (envKey env) as [k|]; [|reflexivity].
  apply find_Set_neq. congruence.
Qed.

(** The key that [copyenv] sees in an entry is the one [LoadFromEnv]
    assigns. *)
Lemma keyOf_envKey env : Syscall.keyOf env = envKey env.
Proof.
  unfold envKey. induction env as [|c env IH];
    cbn [Syscall.keyOf contains Config.SplitN2]; [reflexivity|].
  destruct (Ascii.eqb c "="); [reflexivity|]. cbn [orb]. rewrite IH.
  destruct (contains "=" env) eqn:E.
  - destruct (SplitN2_with_separator env E) as (k & v & -> & _). reflexivity.
  - reflexivity.
Qed.

Lemma envKey_separator key value :
  contains "=" key = false -> envKey (key ++ String "=" value) = Some key.
Proof.
  intros H. unfold envKey.
  assert (Hc : contains "=" (key ++ String "=" value) = true).
  { clear. induction key as [|x k IH]; cbn [append contains].
    - reflexivity.
    - rewrite IH. apply orb_true_r. }
  now rewrite Hc, (SplitN2_separator key value H).
Qed.

Lemma envKey_not_empty env key : envKey env = Some key -> String.eqb env "" = false.
Proof. destruct env; [discriminate|reflexivity]. Qed.

Lemma environFrom_cons s rest i env :
  environFrom (s :: rest) i env =
  match envKey s with
  | Some key =>
    if StringMap.mem key env then environFrom rest (S i) env
    else s :: environFrom rest (S i) (StringMap.add key i env)
  | None =>
    if String.eqb s "" then environFrom rest (S i) env
    else s :: environFrom rest (S i) env
  end.
Proof.
  unfold environFrom. cbn [Syscall.copyenv]. rewrite keyOf_envKey.
  destruct (envKey s) as [key|] eqn:K.
  - destruct (StringMap.mem key env); cbn [negb filter String.eqb].
    + reflexivity.
    + now rewrite (envKey_not_empty s key K).
  - cbn [filter]. now destruct (String.eqb s "").
Qed.

Lemma environFrom_In envs :
  forall i env e, In e (environFrom envs i env) -> In e envs.
Proof.
  induction envs as [|s rest IH]; intros i env e; [intros []|].
  rewrite environFrom_cons.
  destruct (envKey s) as [key|].
  - destruct (StringMap.mem key env).
    + intros H. right. exact (IH _ _ _ H).
    + intros [<- | H]; [now left|right; exact (IH _ _ _ H)].
  - destruct (String.eqb s "").
    + intros H. right. exact (IH _ _ _ H).
    + intros [<- | H]; [now left|right; exact (IH _ _ _ H)].
Qed.

(** A key seen before is not returned again. *)
Lemma environFrom_seen key envs :
  forall i env,
    StringMap.mem key env = true ->
    forall e, In e (environFrom envs i env) -> envKey e <> Some key.
Proof.
  induction envs as [|s rest IH]; intros i env Hseen e; [intros []|].
  rewrite environFrom_cons.
  destruct (envKey s) as [k|] eqn:K.
  - destruct (StringMap.mem k env) eqn:M.
    + apply IH. exact Hseen.
    + intros [<- | H].
      * rewrite K. intros E. injection E as ->. congruence.
      * apply (IH (S i) (StringMap.add k i env)); [|exact H].
        destruct (string_dec k key) as [-> | Hk]; [congruence|].
        rewrite StringMapFacts.add_neq_b by exact Hk. exact Hseen.
  - destruct (String.eqb s "").
    + apply IH. exact Hseen.
    + intros [<- | H]; [congruence|]. exact (IH _ _ Hseen _ H).
Qed.

Lemma envKeys_cons env rest :
  envKeys (env :: rest) =
  match envKey env with
  | Some key => key :: envKeys rest
  | None => envKeys rest
  end.
Proof. unfold envKeys. cbn [flat_map]. now destruct (envKey env). Qed.

Lemma envKeys_In key envs :
  In key (envKeys envs) <-> exists e, In e envs /\ envKey e = Some key.
Proof.
  unfold envKeys. rewrite in_flat_map. split; intros (e & He & H); exists e.
  - destruct (envKey e) as [k|]; [|contradiction].
    destruct H as [-> | []]. now split.
  - rewrite H. split; [exact He|now left].
Qed.

Lemma environFrom_NoDup envs :
  forall i env, NoDup (envKeys (environFrom envs i env)).
Proof.
  induction envs as [|s rest IH]; intros i env; [constructor|].
  rewrite environFrom_cons.
  destruct (envKey s) as [k|] eqn:K.
  - destruct (StringMap.mem k env); [apply IH|].
    rewrite envKeys_cons, K. constructor; [|apply IH].
    intros Hin. apply envKeys_In in Hin. destruct Hin as (e & He & Hk).
    apply (environFrom_seen k rest (S i) (StringMap.add k i env)) in He;
      [contradiction|].
    now rewrite StringMapFacts.add_eq_b.
  - destruct (String.eqb s ""); [apply IH|].
    rewrite envKeys_cons, K. apply IH.
Qed.

(** The first mention of a key is the one that is loaded. *)
Lemma environFrom_first_mention key value after before :
  contains "=" key = false ->
  forall i env c,
    StringMap.mem key env = false ->
    (forall e, In e before -> envKey e <> Some key) ->
    StringMap.find key
      (fold_left loadEntry
         (environFrom (before ++ (key ++ String "=" value) :: after) i env) c)
    = Some value.
Proof.
  intros Hkey. pose proof (envKey_separator key value Hkey) as K.
  induction before as [|b bs IH]; intros i env c Hseen Hbefore.
  - cbn [app]. rewrite environFrom_cons, K, Hseen. cbn [fold_left].
    rewrite loadEntries_untouched.
    + unfold loadEntry. rewrite K, (SplitN2_separator key value Hkey).
      cbn [nth]. apply find_Set_eq.
    + apply (environFrom_seen key after (S i) (StringMap.add key i env)).
      now rewrite StringMapFacts.add_eq_b.
  - cbn [app]. rewrite environFrom_cons.
    assert (Hb : envKey b <> Some key) by (apply Hbefore; now left).
    assert (Hbs : forall e, In e bs -> envKey e <> Some key)
      by (intros e He; apply Hbefore; now right).
    destruct (envKey b) as [k|] eqn:Kb.
    + destruct (StringMap.mem k env) eqn:M; [now apply IH|].
      cbn [fold_left]. apply IH; [|exact Hbs].
      rewrite StringMapFacts.add_neq_b by congruence. exact Hseen.
    + destruct (String.eqb b ""); [now apply IH|].
      cbn [fold_left]. now apply IH.
Qed.

Lemma environFrom_trailing env envs :
  contains "=" env = false ->
  forall i seen c,
    fold_left loadEntry (environFrom (envs ++ [env]) i seen) c
    = fold_left loadEntry (environFrom envs i seen) c.
Proof.
  intros H.
  assert (K : envKey env = None) by (unfold envKey; now rewrite H).
  induction envs as [|s rest IH]; intros i seen c.
  - cbn [app]. rewrite environFrom_cons, K.
    destruct (String.eqb env ""); [reflexivity|].
    cbn [fold_left]. unfold loadEntry at 2. now rewrite K.
  - cbn [app]. rewrite !environFrom_cons.
    destruct (envKey s) as [k|].
    + destruct (StringMap.mem k seen); [apply IH|].
      cbn [fold_left]. apply IH.
    + destruct (String.eqb s ""); [apply IH|]. cbn [fold_left]. apply IH.
Qed.

(** X17: [LoadFromEnv] takes each entry [key=value] that [os.Environ()]
    returns of the environment block, the key ending at the first [=] and
    the value being all that follows, further [=] included.  What
    [os.Environ()] returns holds no key twice: of several mentions of a
    key in the block it is the first that is loaded, whatever comes after
    it.  An entry without [=] changes nothing, and a key that no entry
    assigns is as it was. *)
Theorem Config_LoadFromEnv c before key value after :
  contains "=" key = false ->
  (forall env, In env before -> envKey env <> Some key) ->
  Config.Get (Config.LoadFromEnv c (before ++ (key ++ "=" ++ value) :: after))
    key = value
  /\ Config.Exists
       (Config.LoadFromEnv c (before ++ (key ++ "=" ++ value) :: after)) key
     = true
  /\ (forall other envs,
         (forall env, In env envs -> envKey env <> Some other) ->
         Config.Get (Config.LoadFromEnv c envs) other = Config.Get c other
         /\ Config.Exists (Config.LoadFromEnv c envs) other
            = Config.Exists c other)
  /\ (forall env envs,
         contains "=" env = false ->
         Config.LoadFromEnv c (envs ++ [env]) = Config.LoadFromEnv c envs)
  /\ (forall envs,
         NoDup (envKeys (Syscall.Environ envs))
         /\ (forall env, In env (Syscall.Environ envs) ->
                         In env envs /\ env <> "")).
Proof.
  intros Hkey Hbefore.
  assert (F : StringMap.find key
                (Config.LoadFromEnv c
                   (before ++ (key ++ "=" ++ value) :: after))
              = Some value).
  { rewrite LoadFromEnv_fold.
    change (key ++ "=" ++ value) with (key ++ String "=" value).
    apply (environFrom_first_mention key value after before Hkey);
      [reflexivity|exact Hbefore]. }
  unfold Config.Get, Config.Exists. rewrite F.
  split; [reflexivity|]. split; [reflexivity|]. split; [|split].
  - intros other envs H. rewrite LoadFromEnv_fold.
    rewrite loadEntries_untouched; [now split|].
    intros env He. apply H.
    exact (environFrom_In envs 0 (StringMap.empty nat) env He).
  - intros env envs H. rewrite !LoadFromEnv_fold.
    exact (environFrom_trailing env envs H 0 (StringMap.empty nat) c).
  - intros envs. split.
    + exact (environFrom_NoDup envs 0 (StringMap.empty nat)).
    + intros env He. split.
      * exact (environFrom_In envs 0 (StringMap.empty nat) env He).
      * unfold Syscall.Environ in He. apply filter_In in He.
        destruct He as [_ He]. intros ->. discriminate He.
Qed.

Lemma Config_LoadFromEnv_witness :
  Config.Get
    (Config.LoadFromEnv Config.NewConfig ["B=1"; "A=x=y"; "novalue"; "B=2"])
    "B" = "1"
  /\ Config.Get
       (Config.LoadFromEnv Config.NewConfig ["B=1"; "A=x=y"; "novalue"; "B=2"])
       "A" = "x=y".
Proof.
  split.
  - refine (proj1 (Config_LoadFromEnv Config.NewConfig [] "B" "1"
                     ["A=x=y"; "novalue"; "B=2"] eq_refl _)).
    intros env [].
  - refine (proj1 (Config_LoadFromEnv Config.NewConfig ["B=1"] "A" "x=y"
                     ["novalue"; "B=2"] eq_refl _)).
    intros env [<- | []]; discriminate.
Defined.

Lemma InA_eq_key_fst (key : string) (value : string) l :
  InA (StringMap.eq_key (elt:=string)) (key, value) l <-> In key (map fst l).
Proof.
  induction l as [|[k v] l IH]; cbn [map In].
  - split; [intros H; inversion H|contradiction].
  - rewrite InA_cons, IH. unfold StringMap.eq_key, StringMap.Raw.PX.eqk.
    cbn [fst]. intuition congruence.
Qed.

Lemma NoDup_keys (l : list (string * string)) :
  NoDupA (StringMap.eq_key (elt:=string)) l -> NoDup (map fst l).
Proof.
  induction 1 as [|[k v] l Hnot Hl IH]; cbn [map]; constructor.
  - now rewrite <- (InA_eq_key_fst k v).
  - exact IH.
Qed.

Lemma In_Keys c key : In key (Config.Keys c) <-> Config.Exists c key = true.
Proof.
  unfold Config.Keys, Config.Exists. split.
  - intros H. apply in_map_iff in H. destruct H as ([k v] & <- & Hin).
    assert (M : StringMap.MapsTo k v c).
    { apply StringMapFacts.elements_mapsto_iff.
      apply InA_alt. exists (k, v). split; [|exact Hin].
      split; reflexivity. }
    apply StringMapFacts.find_mapsto_iff in M. cbn [fst]. now rewrite M.
  - destruct (StringMap.find key c) as [v|] eqn:F; [intros _|discriminate].
    apply StringMapFacts.find_mapsto_iff in F.
    apply StringMapFacts.elements_mapsto_iff in F.
    apply InA_alt in F. destruct F as ([k w] & [Hk Hv] & Hin).
    cbn in Hk, Hv. subst k w.
    apply in_map_iff. exists (key, v). split; [reflexivity|exact Hin].
Qed.

Lemma Keys_length c : List.length (Config.Keys c) = StringMap.cardinal c.
Proof.
  unfold Config.Keys. rewrite length_map. symmetry.
  apply StringMap.cardinal_1.
Qed.

Lemma Exists_In c key :
  Config.Exists c key = true <-> StringMap.In key c.
Proof.
  unfold Config.Exists. rewrite StringMapFacts.in_find_iff.
  destruct (StringMap.find key c); split; congruence.
Qed.

(** X18: [Keys] lists every key of the store once: a key is in the list
    exactly when it exists, and no key is listed twice.  [Set] on a new
    key makes the list one longer; on an existing key the length stays. *)
Theorem Config_Keys c :
  NoDup (Config.Keys c)
  /\ (forall key, In key (Config.Keys c) <-> Config.Exists c key = true)
  /\ Config.Keys Config.NewConfig = []
  /\ (forall key value,
         List.length (Config.Keys (Config.Set_ c key value)) =
         if Config.Exists c key then List.length (Config.Keys c)
         else S (List.length (Config.Keys c))).
Proof.
  split; [apply NoDup_keys, StringMap.elements_3w|].
  split; [apply In_Keys|]. split; [reflexivity|].
  intros key value. rewrite !Keys_length. unfold Config.Set_.
  destruct (Config.Exists c key) eqn:E.
  - apply Exists_In in E.
    assert (Hnot : ~ StringMap.In key (StringMap.remove key c))
      by (apply StringMap.remove_1; reflexivity).
    destruct E as [old Hold].
    apply StringMapFacts.find_mapsto_iff in Hold.
    rewrite (StringMapProps.cardinal_2 (m:=StringMap.remove key c)
               (m':=StringMap.add key value c) (x:=key) (e:=value) Hnot).
    + symmetry. apply (StringMapProps.cardinal_2 (x:=key) (e:=old) Hnot).
      intros y. rewrite StringMapFacts.add_o, StringMapFacts.remove_o.
      destruct (StringMapFacts.eq_dec key y) as [<- | _];
        [exact Hold|reflexivity].
    + intros y. rewrite !StringMapFacts.add_o, StringMapFacts.remove_o.
      now destruct (StringMapFacts.eq_dec key y).
  - apply (StringMapProps.cardinal_2 (x:=key) (e:=value)).
    + intros H. apply Exists_In in H. congruence.
    + intros y. reflexivity.
Qed.

Lemma collectParts_acc parts :
  forall result,
    Config.collectParts parts result =
    (result ++ filter (fun p => negb (String.eqb p ""))
              (map TrimSpace parts))%list.
Proof.
  induction parts as [|part rest IH]; intros result.
  - cbn. now rewrite app_nil_r.
  - cbn [Config.collectParts map filter].
    destruct (negb (String.eqb (TrimSpace part) "")).
    + rewrite IH, <- app_assoc. reflexivity.
    + apply IH.
Qed.

(** X19: [GetStringSlice] returns the parts of the stored value between
    the commas, each trimmed, without those that are empty once trimmed,
    in their order; so no element of the result is empty, and a key that
    is missing, an empty value and a value of commas and spaces all give
    the empty list, for which [GetStringSliceWithDefault] returns the
    default. *)
Theorem Config_GetStringSlice c key :
  let slice := Config.GetStringSlice c key in
  slice = filter (fun p => negb (String.eqb p ""))
            (map TrimSpace (Split (Config.Get c key) ","))
  /\ Forall (fun element => element <> "") slice
  /\ List.length slice <= List.length (Split (Config.Get c key) ",")
  /\ (forall defaultValue,
         Config.GetStringSliceWithDefault c key defaultValue =
         match slice with
         | [] => defaultValue
         | _ => slice
         end).
Proof.
  cbv zeta.
  assert (E : Config.GetStringSlice c key =
              filter (fun p => negb (String.eqb p ""))
                (map TrimSpace (Split (Config.Get c key) ","))).
  { unfold Config.GetStringSlice, Config.Get.
    destruct (StringMap.find key c) as [v|]; [|reflexivity].
    destruct (String.eqb_spec v "") as [-> |]; [reflexivity|].
    now rewrite collectParts_acc. }
  split; [exact E|]. split; [|split].
  - rewrite E. apply Forall_forall. intros x Hx.
    apply filter_In in Hx. destruct Hx as [_ Hx].
    destruct (String.eqb_spec x ""); [discriminate|assumption].
  - rewrite E. etransitivity; [apply filter_length_le|].
    now rewrite length_map.
  - intros defaultValue. unfold Config.GetStringSliceWithDefault.
    now destruct (Config.GetStringSlice c key).
Qed.

(** X20: an integer of 64 bits stored as its decimal text is read back
    by [GetInt]; [GetIntWithDefault] then returns it and not the default.
    For a key that does not exist [GetInt] fails with the not-found error
    and [GetIntWithDefault] returns the default. *)
Theorem Config_GetInt c key n :
  (- 2 ^ 63 <= n < 2 ^ 63)%Z ->
  Config.GetInt (Config.Set_ c key (Itoa n)) key = inr n
  /\ (forall defaultValue,
         Config.GetIntWithDefault (Config.Set_ c key (Itoa n)) key defaultValue
         = n)
  /\ (forall missing defaultValue,
         Config.Exists c missing = false ->
         Config.GetInt c missing = inl (Config.KeyNotFound missing)
         /\ Config.GetIntWithDefault c missing defaultValue = defaultValue).
Proof.
  intros Hn.
  assert (E : Config.GetInt (Config.Set_ c key (Itoa n)) key = inr n).
  { unfold Config.GetInt. now rewrite find_Set_eq, (Atoi_Itoa n Hn). }
  split; [exact E|]. split.
  - intros d. unfold Config.GetIntWithDefault. now rewrite E.
  - intros missing d. unfold Config.GetIntWithDefault, Config.GetInt,
                        Config.Exists.
    now destruct (StringMap.find missing c).
Qed.

Lemma Config_GetInt_witness :
  Config.GetIntWithDefault (Config.Set_ Config.NewConfig "max_retries" "3")
    "max_retries" 1 = 3%Z.
Proof.
  refine (proj1 (proj2 (Config_GetInt Config.NewConfig "max_retries" 3 _))
            1%Z).
  change (2 ^ 63)%Z with 9223372036854775808%Z. lia.
Defined.

Lemma Config_Keys_witness :
  In "a" (Config.Keys (Config.Set_ Config.NewConfig "a" "1")).
Proof.
  apply (proj1 (proj2 (Config_Keys (Config.Set_ Config.NewConfig "a" "1")))
           "a").
  reflexivity.
Defined.

Lemma Config_GetStringSlice_witness :
  Config.GetStringSlice
    (Config.Set_ Config.NewConfig "with_spaces" " item1 , item2 ,, item3 ")
    "with_spaces"
  = ["item1"; "item2"; "item3"].
Proof.
  refine (eq_trans
            (proj1 (Config_GetStringSlice
                      (Config.Set_ Config.NewConfig "with_spaces"
                         " item1 , item2 ,, item3 ") "with_spaces")) _).
  reflexivity.
Defined.

(** ** More on the validator *)

(** X1: the violations of a record are those of its fields one after the
    other: for two lists of fields put together they are the violations
    of the first followed by those of the second; so the record is valid
    exactly when both parts are, in whatever order the fields come. *)
Theorem fields_are_validated_independently rc fs1 fs2 :
  violations rc (fs1 ++ fs2) = (violations rc fs1 ++ violations rc fs2)%list
  /\ (Validate rc (VStruct (fs1 ++ fs2)) = None <->
      Validate rc (VStruct fs1) = None /\ Validate rc (VStruct fs2) = None)
  /\ (Validate rc (VStruct (fs1 ++ fs2)) = None <->
      Validate rc (VStruct (fs2 ++ fs1)) = None).
Proof.
  assert (V : violations rc (fs1 ++ fs2)
              = (violations rc fs1 ++ violations rc fs2)%list).
  { rewrite <- !validateFields_violations. apply validateFields_app. }
  assert (N : forall fs, Validate rc (VStruct fs) = None
                    <-> violations rc fs = []).
  { intros fs. rewrite Validate_VStruct, validateFields_violations.
    destruct (violations rc fs); split; congruence. }
  split; [exact V|]. split.
  - rewrite !N, V. split.
    + intros H. now apply app_eq_nil in H.
    + intros [-> ->]. reflexivity.
  - rewrite !N, V.
    assert (V' : violations rc (fs2 ++ fs1)
                 = (violations rc fs2 ++ violations rc fs1)%list).
    { rewrite <- !validateFields_violations. apply validateFields_app. }
    rewrite V'. split; intros H; apply app_eq_nil in H;
      destruct H as [-> ->]; reflexivity.
Qed.

Lemma fields_are_validated_independently_witness :
  Validate noRegexp
    (VStruct [mkField "Age" "" "min=18" (VInt TInt 20);
              mkField "Name" "" "required" (VString false "Ann")]) = None.
Proof.
  apply (proj2 (proj1 (proj2 (fields_are_validated_independently noRegexp
           [mkField "Age" "" "min=18" (VInt TInt 20)]
           [mkField "Name" "" "required" (VString false "Ann")])))).
  split; reflexivity.
Defined.

Lemma applyRule_sameSurface rc name v v' ruleName ruleValue :
  sameSurface v v' ->
  applyRule rc name v ruleName ruleValue
  = applyRule rc name v' ruleName ruleValue.
Proof.
  intros H. unfold applyRule.
  assert (R : validateRequired name v = validateRequired name v').
  { destruct v as [| | | | | | | | | |[t|] | | | | |],
             v' as [| | | | | | | | | |[t'|] | | | | |];
      cbn in H; try discriminate H; try (now rewrite H); try reflexivity;
      unfold validateRequired; cbn [kind Len IsNil]; now rewrite ?H. }
  assert (Mi : forall p, validateMin name v p = validateMin name v' p).
  { intros p.
    destruct v as [| | | | | | | | | |[t|] | | | | |],
             v' as [| | | | | | | | | |[t'|] | | | | |];
      cbn in H; try discriminate H; try (now rewrite H); try reflexivity;
      unfold validateMin; cbn [kind Len]; now rewrite ?H. }
  assert (Ma : forall p, validateMax name v p = validateMax name v' p).
  { intros p.
    destruct v as [| | | | | | | | | |[t|] | | | | |],
             v' as [| | | | | | | | | |[t'|] | | | | |];
      cbn in H; try discriminate H; try (now rewrite H); try reflexivity;
      unfold validateMax; cbn [kind Len]; now rewrite ?H. }
  assert (A : assertString v = assertString v').
  { destruct v as [| | | | | | | | | |[t|] | | | | |],
             v' as [| | | | | | | | | |[t'|] | | | | |];
      cbn in H; try discriminate H; try (now rewrite H); reflexivity. }
  unfold validateEmail, validateURL, validatePattern.
  now rewrite R, Mi, Ma, A.
Qed.

Lemma validateRules_sameSurface rc name v v' rules :
  sameSurface v v' ->
  forall errors,
    validateRules rc name v rules errors
    = validateRules rc name v' rules errors.
Proof.
  intros H. induction rules as [|rule rest IH]; intros errors;
    [reflexivity|].
  rewrite !validateRules_cons, (applyRule_sameSurface rc name v v' _ _ H).
  destruct (String.eqb (TrimSpace rule) ""); apply IH.
Qed.

(** X2: the rules look at a value from the outside only.  A field that
    holds a nested struct is validated the same whatever the fields of
    that struct are (they are not validated in turn), a pointer that is
    not nil the same whatever it points to, and a sequence or a map the
    same whatever its elements are, as long as there are as many. *)
Theorem nested_values_are_opaque rc name v v' tag :
  sameSurface v v' ->
  validateField rc name v tag = validateField rc name v' tag
  /\ (forall fs1 pkg fs2,
         Validate rc (VStruct (fs1 ++ mkField name pkg tag v :: fs2))
         = Validate rc (VStruct (fs1 ++ mkField name pkg tag v' :: fs2))).
Proof.
  intros H.
  assert (F : validateField rc name v tag = validateField rc name v' tag)
    by (unfold validateField; now apply validateRules_sameSurface).
  split; [exact F|]. intros fs1 pkg fs2.
  rewrite !Validate_VStruct, !validateFields_app, !validateFields_cons.
  unfold validated, IsExported. cbn [PkgPath Tag_validate Name fieldValue].
  destruct (String.eqb pkg "" && negb (String.eqb tag "")); [|reflexivity].
  rewrite (validateFields_acc rc fs2 ([] ++ validateField rc name v tag)),
          (validateFields_acc rc fs2 ([] ++ validateField rc name v' tag)).
  now rewrite F.
Qed.

Lemma nested_values_are_opaque_witness :
  Validate noRegexp
    (VStruct [mkField "Owner" "" "required"
                (VStruct [mkField "Name" "" "required" (VString false "")])])
  = Validate noRegexp
      (VStruct [mkField "Owner" "" "required" (VStruct [])]).
Proof.
  exact (proj2 (nested_values_are_opaque noRegexp "Owner"
                  (VStruct [mkField "Name" "" "required" (VString false "")])
                  (VStruct []) "required" I) [] "" []).
Defined.

Lemma parseInt_Itoa n : (- 2 ^ 63 <= n < 2 ^ 63)%Z -> parseInt (Itoa n) = n.
Proof.
  intros Hn. pose proof (Atoi_Itoa n Hn) as A.
  apply parseInt_scanned; [exact (Atoi_not_empty _ _ A)|].
  now apply Atoi_Sscanf_d.
Qed.

Lemma validateMin_measure name v param m :
  measure v = Some m ->
  (validateMin name v param = None <-> (parseInt param <= m)%Z).
Proof.
  intros H. unfold validateMin.
  destruct v as [| | t n | | | | b s | l | l | | | | | | |];
    try discriminate H; try destruct t; cbn [measure] in H;
    injection H as <-; cbn [kind String_ Len Int];
    match goal with
    | |- (if (?a <? ?b)%Z then _ else _) = _ <-> _ =>
      destruct (Z.ltb_spec a b); split; intros Hx;
      first [lia | reflexivity | discriminate Hx]
    end.
Qed.

Lemma validateMax_measure name v param m :
  measure v = Some m ->
  (validateMax name v param = None <-> (m <= parseInt param)%Z).
Proof.
  intros H. unfold validateMax.
  destruct v as [| | t n | | | | b s | l | l | | | | | | |];
    try discriminate H; try destruct t; cbn [measure] in H;
    injection H as <-; cbn [kind String_ Len Int];
    match goal with
    | |- (if (?a >? ?b)%Z then _ else _) = _ <-> _ =>
      destruct (Z.gtb_spec a b); split; intros Hx;
      first [lia | reflexivity | discriminate Hx]
    end.
Qed.

(** The kinds that [min] and [max] have a case for are those with a
    measure. *)
Lemma measure_minMaxHasCase v :
  minMaxHasCase (kind v) = true <-> measure v <> None.
Proof.
  destruct v as [| b | t n | t n | t n | t x y | b t | l | l | m | p
                 | c | fs | b | b | z];
    try destruct t; cbn [kind minMaxHasCase measure];
    split; intros H; congruence.
Qed.

(** On a value without a measure, [min] and [max] pass whatever their
    parameter. *)
Lemma unmeasured_passes name v param :
  measure v = None ->
  validateMin name v param = None /\ validateMax name v param = None.
Proof.
  intros H. unfold validateMin, validateMax.
  destruct v as [| b | t n | t n | t n | t x y | b t | l | l | m | p
                 | c | fs | b | b | z];
    try discriminate H; try destruct t; cbn [kind]; split; reflexivity.
Qed.

(** X4: with a parameter written as a decimal integer of 64 bits, [min]
    passes on a text, a sequence or a signed integer exactly when the
    length of the text or of the sequence, or the value of the signed
    integer, is at least that number, and [max] exactly when it is at most
    that number.  These are the only kinds the two rules look at: on an
    unsigned integer, as on every other value, both pass whatever the
    value and the parameter. *)
Theorem min_max_with_decimal_parameter rc name v m n :
  (- 2 ^ 63 <= n < 2 ^ 63)%Z ->
  measure v = Some m ->
  (applyRule rc name v "min" (Itoa n) = None <-> (n <= m)%Z)
  /\ (applyRule rc name v "max" (Itoa n) = None <-> (m <= n)%Z)
  /\ (forall t u param,
         measure (VUint t u) = None
         /\ applyRule rc name (VUint t u) "min" param = None
         /\ applyRule rc name (VUint t u) "max" param = None)
  /\ (forall other param,
         measure other = None ->
         applyRule rc name other "min" param = None
         /\ applyRule rc name other "max" param = None)
  /\ (forall other,
         measure other <> None <->
         match other with
         | VString _ _ | VSlice _ | VArray _ | VInt _ _ => True
         | _ => False
         end).
Proof.
  intros Hn Hm.
  change (applyRule rc name v "min" (Itoa n)) with (validateMin name v (Itoa n)).
  change (applyRule rc name v "max" (Itoa n)) with (validateMax name v (Itoa n)).
  rewrite (validateMin_measure name v _ m Hm),
          (validateMax_measure name v _ m Hm), (parseInt_Itoa n Hn).
  split; [reflexivity|]. split; [reflexivity|]. split; [|split].
  - intros t u param. split; [reflexivity|].
    exact (unmeasured_passes name (VUint t u) param eq_refl).
  - intros other param H. exact (unmeasured_passes name other param H).
  - intros other. destruct other; cbn [measure]; split; intros H;
      first [exact I | contradiction | discriminate | congruence].
Qed.

Lemma min_max_with_decimal_parameter_witness :
  applyRule noRegexp "Tags" (VSlice [VString false "a"; VString false "b"])
    "max" (Itoa 10) = None
  /\ applyRule noRegexp "Tags" (VUint TUint 3) "min" (Itoa 10) = None.
Proof.
  assert (H10 : (- 2 ^ 63 <= 10 < 2 ^ 63)%Z)
    by (change (2 ^ 63)%Z with 9223372036854775808%Z; lia).
  pose proof (min_max_with_decimal_parameter noRegexp "Tags"
                (VSlice [VString false "a"; VString false "b"])
                2 10 H10 eq_refl) as (_ & Hmax & Huint & _).
  split.
  - apply (proj2 Hmax). lia.
  - exact (proj1 (proj2 (Huint TUint 3%Z (Itoa 10)))).
Defined.

(** X5: a text, a sequence or a signed integer passes both [min] and
    [max] exactly when its length or value lies between the numbers read
    from the two parameters: when the parameter of [min] is read as a
    larger number than that of [max], every such value fails one of the
    two rules.  A value of any other kind, an unsigned integer among them,
    passes both rules whatever the two parameters are. *)
Theorem min_above_max_is_unsatisfiable name v m minStr maxStr :
  measure v = Some m ->
  (validateMin name v minStr = None /\ validateMax name v maxStr = None
   <-> (parseInt minStr <= m <= parseInt maxStr)%Z)
  /\ ((parseInt maxStr < parseInt minStr)%Z ->
      validateMin name v minStr <> None \/ validateMax name v maxStr <> None)
  /\ (forall t u,
         measure (VUint t u) = None
         /\ validateMin name (VUint t u) minStr = None
         /\ validateMax name (VUint t u) maxStr = None)
  /\ (forall other,
         measure other = None ->
         validateMin name other minStr = None
         /\ validateMax name other maxStr = None)
  /\ (forall other,
         measure other <> None <->
         match other with
         | VString _ _ | VSlice _ | VArray _ | VInt _ _ => True
         | _ => False
         end).
Proof.
  intros Hm.
  rewrite (validateMin_measure name v minStr m Hm),
          (validateMax_measure name v maxStr m Hm).
  split; [reflexivity|]. split; [intros H; lia|]. split; [|split].
  - intros t u. split; [reflexivity|]. split.
    + exact (proj1 (unmeasured_passes name (VUint t u) minStr eq_refl)).
    + exact (proj2 (unmeasured_passes name (VUint t u) maxStr eq_refl)).
  - intros other H. split.
    + exact (proj1 (unmeasured_passes name other minStr H)).
    + exact (proj2 (unmeasured_passes name other maxStr H)).
  - intros other. destruct other; cbn [measure]; split; intros H;
      first [exact I | contradiction | discriminate | congruence].
Qed.

Lemma min_above_max_is_unsatisfiable_witness :
  (validateMin "Name" (VString false "abc") "5" <> None
   \/ validateMax "Name" (VString false "abc") "2" <> None)
  /\ validateMin "Count" (VUint TUint 3) "5" = None
  /\ validateMax "Count" (VUint TUint 3) "2" = None.
Proof.
  split.
  - apply (proj1 (proj2 (min_above_max_is_unsatisfiable "Name"
                           (VString false "abc") 3 "5" "2" eq_refl))).
    reflexivity.
  - exact (proj2 (proj1 (proj2 (proj2 (min_above_max_is_unsatisfiable "Count"
                           (VInt TInt 3) 3 "5" "2" eq_refl))) TUint 3%Z)).
Defined.

(** X6: the validator reads a parameter at least as well as the
    configuration store reads an integer: whenever [GetInt] accepts the
    text stored under a key, [parseInt] gives the same number for that
    text, as it does for every text that [strconv.Atoi] accepts. *)
Theorem parseInt_agrees_with_GetInt c key n :
  Config.GetInt c key = inr n ->
  parseInt (Config.Get c key) = n
  /\ Atoi (Config.Get c key) = inr n
  /\ (forall name v m,
         measure v = Some m ->
         (validateMin name v (Config.Get c key) = None <-> (n <= m)%Z)
         /\ (validateMax name v (Config.Get c key) = None <-> (m <= n)%Z)).
Proof.
  unfold Config.GetInt, Config.Get.
  destruct (StringMap.find key c) as [value|]; [|discriminate].
  destruct (Atoi value) as [err|i] eqn:A; [discriminate|].
  intros H. injection H as <-.
  assert (P : parseInt value = i).
  { apply parseInt_scanned; [exact (Atoi_not_empty _ _ A)|].
    now apply Atoi_Sscanf_d. }
  split; [exact P|]. split; [reflexivity|]. intros name v m Hm.
  rewrite (validateMin_measure name v value m Hm),
          (validateMax_measure name v value m Hm), P.
  split; reflexivity.
Qed.

Lemma parseInt_agrees_with_GetInt_witness :
  parseInt (Config.Get (Config.Set_ Config.NewConfig "limit" "-42") "limit")
  = (-42)%Z.
Proof.
  exact (proj1 (parseInt_agrees_with_GetInt
                  (Config.Set_ Config.NewConfig "limit" "-42") "limit" (-42)
                  eq_refl)).
Defined.

(** ** Runes and bytes: a rune below 128 is a byte of the text *)











(** ** What the derivative matcher accepts *)


























Lemma bytes_length s : List.length (bytes s) = String.length s.
Proof.
  induction s as [|c s IH]; [reflexivity|].
  rewrite bytes_cons. cbn [List.length String.length]. now rewrite IH.
Qed.







Lemma formatBits_hex_length fuel :
  forall (k : nat) u acc,
    1 <= k -> (0 <= u < 16 ^ Z.of_nat k)%Z ->
    String.length (formatBits fuel 16 u acc) <= k + String.length acc.
Proof.
  induction fuel as [|fuel IH]; intros k u acc Hk Hu; [cbn; lia|].
  cbn [formatBits]. destruct (Z.ltb_spec u 16) as [Hlt | Hge].
  - cbn [String.length]. lia.
  - destruct k as [|k]; [lia|]. destruct k as [|k].
    + change (16 ^ Z.of_nat 1)%Z with 16%Z in Hu. lia.
    + specialize (IH (S k) (u / 16)%Z
                     (String (digitChar (u mod 16)) acc)).
      cbn [String.length] in IH.
      assert (Hdiv : (0 <= u / 16 < 16 ^ Z.of_nat (S k))%Z).
      { rewrite (Nat2Z.inj_succ (S k)), Z.pow_succ_r in Hu by lia.
        split; [apply Z.div_pos; lia|].
        apply Z.div_lt_upper_bound; lia. }
      specialize (IH ltac:(lia) Hdiv). lia.
Qed.

(** X11: when the random source fails, [Generate] of a [HexIDGenerator]
    cuts the hex form of the clock, which has at most 16 digits, to the
    length of the generator; a generator longer than 16 then panics. *)
Theorem HexIDGenerator_fallback requested now :
  (0 <= now < 2 ^ 63)%Z ->
  let g := Providers.HexIDGenerator.New requested in
  Providers.HexIDGenerator.Generate g None now =
  Providers.sliceTo (FormatInt now 16) (Providers.HexIDGenerator.length g)
  /\ String.length (FormatInt now 16) <= 16
  /\ ((16 < requested)%Z ->
      Providers.HexIDGenerator.Generate g None now = None).
Proof.
  intros Hnow g. subst g. unfold Providers.HexIDGenerator.New.
  set (len := (if (requested <=? 0)%Z then 16 else requested)%Z).
  assert (Hpos : (0 < len)%Z).
  { subst len. destruct (Z.leb_spec requested 0); lia. }
  assert (Hgen : Providers.HexIDGenerator.Generate
                   {| Providers.HexIDGenerator.length := len |} None now
                 = Providers.sliceTo (FormatInt now 16) len).
  { unfold Providers.HexIDGenerator.Generate.
    cbn [Providers.HexIDGenerator.length].
    rewrite Z.quot_div_nonneg by lia.
    destruct (Z.ltb_spec (len / 2) 0) as [Hneg|]; [|reflexivity].
    pose proof (Z.div_pos len 2). lia. }
  assert (Hlen : String.length (FormatInt now 16) <= 16).
  { unfold FormatInt. destruct (Z.ltb_spec now 0); [lia|].
    pose proof (formatBits_hex_length 64 16 now "") as B.
    cbn [String.length] in B. rewrite Nat.add_0_r in B. apply B; [lia|].
    change (16 ^ Z.of_nat 16)%Z with 18446744073709551616%Z.
    change (2 ^ 63)%Z with 9223372036854775808%Z in Hnow. lia. }
  cbn [Providers.HexIDGenerator.length].
  split; [exact Hgen|]. split; [exact Hlen|].
  intros Hbig. rewrite Hgen. unfold Providers.sliceTo.
  assert (len = requested)
    by (subst len; destruct (Z.leb_spec requested 0); lia).
  destruct (Z.leb_spec len (Z.of_nat (String.length (FormatInt now 16))));
    [lia|]. now rewrite andb_false_r.
Qed.

Lemma HexIDGenerator_fallback_witness :
  Providers.HexIDGenerator.Generate (Providers.HexIDGenerator.New 32) None
    1700000000000000000 = None.
Proof.
  refine (proj2 (proj2 (HexIDGenerator_fallback 32 1700000000000000000 _)) _).
  - change (2 ^ 63)%Z with 9223372036854775808%Z. lia.
  - lia.
Defined.

Lemma applyRule_message rc name v ruleName ruleValue msg :
  applyRule rc name v ruleName ruleValue = Some msg ->
  (exists tail, msg = "field '" ++ name ++ "' " ++ tail)
  \/ (exists cause, msg = "invalid pattern for field '" ++ name ++ "': " ++ cause)
  \/ (msg = "unknown validation rule: " ++ ruleName
      /\ recognized ruleName = false).
Proof.
  unfold applyRule.
  destruct (String.eqb ruleName "required") eqn:E1.
  { unfold validateRequired.
    destruct (kind v);
      try match goal with
          | |- (if ?c then _ else _) = _ -> _ => destruct c
          end;
      intros H; try discriminate H; injection H as <-;
      left; eexists; reflexivity. }
  destruct (String.eqb ruleName "min") eqn:E2.
  { unfold validateMin.
    destruct (kind v);
      try match goal with
          | |- (if ?c then _ else _) = _ -> _ => destruct c
          end;
      intros H; try discriminate H; injection H as <-;
      left; eexists; reflexivity. }
  destruct (String.eqb ruleName "max") eqn:E3.
  { unfold validateMax.
    destruct (kind v);
      try match goal with
          | |- (if ?c then _ else _) = _ -> _ => destruct c
          end;
      intros H; try discriminate H; injection H as <-;
      left; eexists; reflexivity. }
  destruct (String.eqb ruleName "email") eqn:E4.
  { unfold validateEmail. destruct (assertString v);
      try match goal with
          | |- (if ?c then _ else _) = _ -> _ => destruct c
          end;
      intros H; try discriminate H; injection H as <-;
      left; eexists; reflexivity. }
  destruct (String.eqb ruleName "url") eqn:E5.
  { unfold validateURL. destruct (assertString v);
      repeat match goal with
             | |- (if ?c then _ else _) = _ -> _ => destruct c
             end;
      intros H; try discriminate H; injection H as <-;
      left; eexists; reflexivity. }
  destruct (String.eqb ruleName "pattern") eqn:E6.
  { unfold validatePattern. destruct (assertString v) as [str|].
    - destruct (rc ruleValue) as [matchString|err].
      + destruct (negb (matchString str)); intros H; [|discriminate H].
        injection H as <-. left. eexists. reflexivity.
      + intros H. injection H as <-. right. left. eexists. reflexivity.
    - intros H. injection H as <-. left. eexists. reflexivity. }
  intros H. injection H as <-. right. right. split; [reflexivity|].
  unfold recognized. cbn [existsb]. now rewrite E1, E2, E3, E4, E5, E6.
Qed.

(** X3: every message that the evaluation of a field adds names the
    field, as [field '<name>' ...] or as
    [invalid pattern for field '<name>': ...], except the message for an
    unrecognized rule, which names the rule only; and a field adds at most
    one message for each rule of its declaration. *)
Theorem field_messages_name_the_field rc name v tag :
  (forall msg,
      In msg (validateField rc name v tag) ->
      (exists tail, msg = "field '" ++ name ++ "' " ++ tail)
      \/ (exists cause,
             msg = "invalid pattern for field '" ++ name ++ "': " ++ cause)
      \/ (exists rule,
             In rule (Split tag ",")
             /\ msg = "unknown validation rule: " ++ ruleNameOf (TrimSpace rule)
             /\ recognized (ruleNameOf (TrimSpace rule)) = false))
  /\ List.length (validateField rc name v tag) <= List.length (Split tag ",").
Proof.
  unfold validateField. rewrite validateRules_flat_map. split.
  - intros msg H. apply in_flat_map in H. destruct H as (rule & Hrule & H).
    rewrite validateRules_single in H.
    destruct (String.eqb (TrimSpace rule) ""); [contradiction|].
    destruct (applyRule rc name v (ruleNameOf (TrimSpace rule))
                (ruleValueOf (TrimSpace rule))) as [m|] eqn:E;
      [|contradiction].
    destruct H as [<- | []].
    destruct (applyRule_message _ _ _ _ _ _ E) as [H | [H | [H R]]];
      [now left|now right; left|].
    right. right. exists rule. auto.
  - generalize (Split tag ","). intros rules.
    induction rules as [|rule rest IH]; [reflexivity|].
    cbn [flat_map]. rewrite length_app, validateRules_single.
    cbn [List.length].
    destruct (String.eqb (TrimSpace rule) ""); cbn [List.length]; [lia|].
    destruct (applyRule rc name v _ _); cbn [errorList List.length]; lia.
Qed.

Lemma field_messages_name_the_field_witness :
  (exists tail, "field 'Name' is required" = "field '" ++ "Name" ++ "' " ++ tail)
  \/ (exists cause,
         "field 'Name' is required"
         = "invalid pattern for field '" ++ "Name" ++ "': " ++ cause)
  \/ (exists rule,
         In rule (Split "bogus,required" ",")
         /\ "field 'Name' is required"
            = "unknown validation rule: " ++ ruleNameOf (TrimSpace rule)
         /\ recognized (ruleNameOf (TrimSpace rule)) = false).
Proof.
  apply (proj1 (field_messages_name_the_field noRegexp "Name"
                  (VString false "") "bogus,required")).
  vm_compute. right. left. reflexivity.
Defined.
